(** * secondKick.py: the turbulence-layer profile and the cutoff sweep

    A shallow embedding of [make_plot] from
    [devel/modules/atmValidate/secondKick.py] and the properties of it that
    the design note states.

    Numbers.  The script computes with IEEE-754 binary64 values.  Three
    readings of that arithmetic are used, each where it is faithful:
    - [Num.binary64]: Rocq's primitive floats, bit for bit what numpy
      computes for [+], [-], [*] and [/]; used for the altitude grid of
      line 67 and for the steps of [np.linspace] in line 105;
    - [Num.exact]: the real numbers, that is binary64 without rounding,
      overflow or special values; used where every intermediate value is
      finite and the property is one of exact arithmetic;
    - [XReal.xreal]: the reals extended with [+inf], [-inf] and [nan] (still
      without rounding); used for the values of the cutoff grid and for the
      values a library call returns.

    The layer profile is read twice.  [Builder.layer_profile] is the script's
    own: binary64 altitudes, handed to the library's lookup table, whose
    answer is taken as it comes.  [Profile.layer_profile] is the reading
    without rounding, with the table written out from the design note.

    Library code.  [galsim] (lookup table, deviates, atmosphere, PSFs, HSM),
    matplotlib and astropy are not part of the file.  The collaborators are
    fields of an interface record, or parameters, and every call of the
    sweep is logged. *)

From Stdlib Require Import String Ascii ZArith List Bool Reals Lra Lia.
From Stdlib Require PrimFloat Uint63.
Import ListNotations.

(** ** Exceptions and outcomes *)

Module Py.

(** The exception classes that matter to the script.  [RuntimeError] stands
    for the class and its subclasses, which is what [except RuntimeError]
    catches; [OtherError] is any class that is not one of those listed.
    [Unmodelled] is no exception of Python's: it marks a run that leaves what
    this development describes (a complex number out of a float power). *)
Inductive exn : Type :=
| ValueError
| ZeroDivisionError
| RuntimeError
| FileNotFoundError
| FileExistsError
| OtherError (name : string)
| Unmodelled (what : string).

Inductive outcome (A : Type) : Type :=
| Ok (a : A)
| Raise (e : exn).

Arguments Ok {A} a.
Arguments Raise {A} e.

Definition bind {A B : Type} (m : outcome A) (f : A -> outcome B) : outcome B :=
  match m with
  | Ok a => f a
  | Raise e => Raise e
  end.

Definition raises {A : Type} (m : outcome A) : Prop := exists e, m = Raise e.

(** Python's float division: a zero divisor raises. *)
Definition py_truediv (x y : R) : outcome R :=
  if Req_dec_T y 0 then Raise ZeroDivisionError else Ok (x / y)%R.

(** Python's float power [x ** y].  A zero base raises for a negative
    exponent; a negative base with a fractional exponent gives a complex
    number, which is not followed further. *)
Definition py_pow (x y : R) : outcome R :=
  if Rlt_dec 0 x then Ok (Rpower x y)
  else if Rlt_dec x 0 then Raise (Unmodelled "complex power")
  else if Rlt_dec y 0 then Raise ZeroDivisionError
  else if Rlt_dec 0 y then Ok 0%R
  else Ok 1%R.

End Py.

Import Py.

Notation "x <- m ;; k" := (Py.bind m (fun x => k))
  (at level 61, m at next level, right associativity).

(** ** Arithmetic *)

Module Num.

(** What line 67 needs of a number type: conversion of the integers of
    [np.arange], elementwise product and quotient, and the comparison behind
    [np.max]. *)
Class Arith (F : Type) : Type := {
  of_Z : Z -> F;
  mul : F -> F -> F;
  div : F -> F -> F;
  ltb : F -> F -> bool
}.

Definition Rltb (x y : R) : bool := if Rlt_dec x y then true else false.

(** Exact arithmetic. *)
#[export] Instance exact : Arith R := {|
  of_Z := IZR;
  mul := Rmult;
  div := Rdiv;
  ltb := Rltb
|}.

(** int64 to binary64, exact below 2^53 in magnitude. *)
Definition b64_of_Z (z : Z) : PrimFloat.float :=
  if (z <? 0)%Z
  then PrimFloat.opp (PrimFloat.of_uint63 (Uint63.of_Z (- z)))
  else PrimFloat.of_uint63 (Uint63.of_Z z).

(** binary64 as numpy computes it.  The elementwise quotient of arrays
    follows IEEE-754: a zero divisor gives [nan] or an infinity (and a
    RuntimeWarning), never an exception. *)
#[export] Instance binary64 : Arith PrimFloat.float := {|
  of_Z := b64_of_Z;
  mul := PrimFloat.mul;
  div := PrimFloat.div;
  ltb := PrimFloat.ltb
|}.

(** A decimal literal [m / d] with [d] a power of ten: the nearest binary64
    value in [binary64] (the quotient of two exactly represented integers is
    correctly rounded), the rational itself in [exact]. *)
Definition dec {F : Type} `{Arith F} (m d : Z) : F := div (of_Z m) (of_Z d).

End Num.

Import Num.

(** ** The layer-profile builder, lines 61-69 *)

Module Profile.

Section Altitudes.
Context {F : Type} `{Arith F}.

(** Line 61. *)
Definition Ellerbroek_alts : list F :=
  [dec 0 1; dec 258 100; dec 516 100; dec 773 100; dec 1289 100; dec 1546 100].

(** Line 62. *)
Definition Ellerbroek_weights : list F :=
  [dec 652 1000; dec 172 1000; dec 55 1000; dec 25 1000; dec 74 1000; dec 22 1000].

Definition fmax (m x : F) : F := if ltb m x then x else m.

(** [np.max] of a sequence without [nan]; numpy raises [ValueError] on an
    empty one. *)
Definition np_max (l : list F) : outcome F :=
  match l with
  | [] => Raise ValueError
  | x :: xs => Ok (fold_left fmax xs x)
  end.

(** [np.arange(n)]: the integers [0 .. n-1], empty when [n <= 0]. *)
Definition np_arange (n : Z) : list Z := map Z.of_nat (seq 0 (Z.to_nat n)).

(** Line 67: [np.max(Ellerbroek_alts)*np.arange(nlayers)/(nlayers-1)]. *)
Definition alts (nlayers : Z) : outcome (list F) :=
  amax <- np_max Ellerbroek_alts ;;
  Ok (map (fun i => div (mul amax (of_Z i)) (of_Z (nlayers - 1))) (np_arange nlayers)).

End Altitudes.

(** Modelled from the spec: [galsim.LookupTable(x, f, interpolant='linear')]
    is not in the file.  The design note makes it the piecewise linear curve
    through the table's points; in this reading it gives no value outside
    the table's range.  ([Builder] leaves the table to the library.) *)
Fixpoint linear_interp (tab : list (R * R)) (x : R) : option R :=
  match tab with
  | [] => None
  | (x0, f0) :: rest =>
      match rest with
      | [] => None
      | (x1, f1) :: _ =>
          if Rltb x x0 then None
          else if Rltb x1 x then linear_interp rest x
          else Some (f0 + (x - x0) * (f1 - f0) / (x1 - x0))%R
      end
  end.

(** A table is usable when its abscissae increase strictly; the reference
    table also has positive ordinates. *)
Fixpoint table_ok (tab : list (R * R)) : Prop :=
  match tab with
  | [] => True
  | (x0, f0) :: rest =>
      (0 < f0)%R /\
      match rest with [] => True | (x1, _) :: _ => (x0 < x1)%R end /\
      table_ok rest
  end.

(** The reference table: the points [(altitude, weight)] of lines 61-62. *)
Definition Ellerbroek_table : list (R * R) := combine Ellerbroek_alts Ellerbroek_weights.

(** Lines 63-64.  A point outside the table is reported by an error of the
    library's. *)
Definition Ellerbroek_interp (x : R) : outcome R :=
  match linear_interp Ellerbroek_table x with
  | Some w => Ok w
  | None => Raise (OtherError "LookupTable range")
  end.

Fixpoint mapM {A B : Type} (f : A -> outcome B) (l : list A) : outcome (list B) :=
  match l with
  | [] => Ok []
  | a :: l' => b <- f a ;; bs <- mapM f l' ;; Ok (b :: bs)
  end.

(** Python's [sum]: a left fold from 0. *)
Definition py_sum (l : list R) : R := fold_left Rplus l 0%R.

(** Lines 68-69: interpolate, then renormalise in place. *)
Definition weights (alts : list R) : outcome (list R) :=
  w <- mapM Ellerbroek_interp alts ;;
  Ok (map (fun x => x / py_sum w)%R w).

(** Lines 61-69 in exact arithmetic: the altitudes and the weights.  With
    one layer the only altitude is 0/0, a [nan] in the script's arithmetic
    (see [alts] at [binary64]); the exact reading ends there.  The builder
    on the altitudes that binary64 gives is [Builder.layer_profile]. *)
Definition layer_profile (nlayers : Z) : outcome (list R * list R) :=
  if (nlayers =? 1)%Z then Raise (Unmodelled "nan altitude")
  else
    a <- alts nlayers ;;
    w <- weights a ;;
    Ok (a, w).

(** The grid of [n] altitudes starts at zero and ends on the largest
    altitude of the reference table, in the arithmetic [F]. *)
Definition spans_table {F : Type} `{Arith F} (n : Z) : Prop :=
  exists a amax first final,
    alts n = Ok a /\
    np_max Ellerbroek_alts = Ok amax /\
    nth_error a 0 = Some first /\
    nth_error a (length a - 1) = Some final /\
    first = of_Z 0 /\
    final = amax.

(** Line 67 in closed form: [max * i / (n - 1)] for [i = 0 .. n-1], with
    the maximum 15.46 of the reference altitudes. *)
Definition exact_grid (n : Z) : list R :=
  map (fun i => 1546 / 100 * IZR i / IZR (n - 1))%R (np_arange n).

(** Consecutive entries differ by [h]. *)
Definition uniform_grid (a : list R) (h : R) : Prop :=
  forall i, (S i < length a)%nat -> (nth (S i) a 0 - nth i a 0 = h)%R.

Definition nondecreasing (a : list R) : Prop :=
  forall i j, (i <= j < length a)%nat -> (nth i a 0 <= nth j a 0)%R.

(** The checks on the binary64 grid of line 67 that are run for a range of
    layer counts: the first altitude is zero, the altitudes do not decrease,
    consecutive altitudes differ by [max / (n - 1)] to within 2^-47, and the
    last is within 2^-49, one unit in the last place, of the table's
    maximum. *)
Definition b64_sorted (l : list PrimFloat.float) : bool :=
  forallb (fun p => PrimFloat.leb (fst p) (snd p)) (combine l (tl l)).

Definition b64_spaced (l : list PrimFloat.float) (h : PrimFloat.float) : bool :=
  forallb
    (fun p => PrimFloat.leb
                (PrimFloat.abs (PrimFloat.sub (PrimFloat.sub (snd p) (fst p)) h))
                (dec 1 (2 ^ 47)))
    (combine l (tl l)).

Definition b64_grid_ok (n : Z) : bool :=
  match alts (F := PrimFloat.float) n, np_max (F := PrimFloat.float) Ellerbroek_alts with
  | Ok l, Ok m =>
      PrimFloat.eqb (hd PrimFloat.nan l) PrimFloat.zero
      && b64_sorted l
      && b64_spaced l (PrimFloat.div m (of_Z (n - 1)))
      && PrimFloat.leb
           (PrimFloat.abs (PrimFloat.sub (last l PrimFloat.nan) m))
           (dec 1 (2 ^ 49))
  | _, _ => false
  end.

End Profile.

Import Profile.

(** ** Extended reals: the values of the cutoff grid *)

Module XReal.

(** A binary64 value without its rounding: a real number, an infinity or
    [nan]. *)
Inductive xreal : Type :=
| Fin (r : R)
| PInf
| NInf
| NaN.

Definition neg (x : xreal) : xreal :=
  match x with
  | Fin r => Fin (- r)
  | PInf => NInf
  | NInf => PInf
  | NaN => NaN
  end.

Definition add (a b : xreal) : xreal :=
  match a, b with
  | NaN, _ | _, NaN => NaN
  | Fin x, Fin y => Fin (x + y)
  | PInf, NInf | NInf, PInf => NaN
  | PInf, _ | _, PInf => PInf
  | NInf, _ | _, NInf => NInf
  end.

Definition sub (a b : xreal) : xreal := add a (neg b).

(** The product with a finite number [c]. *)
Definition scale (c : R) (x : xreal) : xreal :=
  match x with
  | Fin r => Fin (c * r)
  | PInf => if Rlt_dec 0 c then PInf else if Rlt_dec c 0 then NInf else NaN
  | NInf => if Rlt_dec 0 c then NInf else if Rlt_dec c 0 then PInf else NaN
  | NaN => NaN
  end.

(** The quotient by a finite number; the sign of a zero divisor is not
    modelled, it is taken as [+0]. *)
Definition div_fin (x : xreal) (c : R) : xreal :=
  if Req_dec_T c 0 then
    match x with
    | Fin r => if Rlt_dec 0 r then PInf else if Rlt_dec r 0 then NInf else NaN
    | other => other
    end
  else scale (/ c) x.

(** [x == 0]. *)
Definition is_zero (x : xreal) : bool :=
  match x with
  | Fin r => if Req_dec_T r 0 then true else false
  | _ => false
  end.

(** [np.log10]: [-inf] at zero and [nan] below it (with a RuntimeWarning,
    not an exception). *)
Definition log10 (x : R) : xreal :=
  if Rlt_dec 0 x then Fin (ln x / ln 10)
  else if Rlt_dec x 0 then NaN
  else NInf.

(** [np.power(10.0, y)]. *)
Definition pow10 (y : xreal) : xreal :=
  match y with
  | Fin r => Fin (Rpower 10 r)
  | PInf => PInf
  | NInf => Fin 0
  | NaN => NaN
  end.

(** [y[-1] = stop]. *)
Definition set_last (y : list xreal) (stop : xreal) : list xreal :=
  match y with
  | [] => []
  | _ :: _ => removelast y ++ [stop]
  end.

(** [np.linspace(start, stop, num)] with the default [endpoint=True]:
    [step = (stop - start) / (num - 1)], then [arange(num) * step + start]
    (computed as [arange(num) / (num - 1) * delta + start] when the step is
    zero), and the last entry overwritten with [stop]. *)
Definition np_linspace (start stop : xreal) (num : nat) : list xreal :=
  let div := (num - 1)%nat in
  let delta := sub stop start in
  let y := map INR (seq 0 num) in
  let y :=
    if (1 <? num)%nat then
      let step := div_fin delta (INR div) in
      if is_zero step
      then map (fun i => scale (i / INR div) delta) y
      else map (fun i => scale i step) y
    else map (fun i => scale i delta) y in
  let y := map (fun v => add v start) y in
  if (1 <? num)%nat then set_last y stop else y.

(** [np.logspace(start, stop, num)] with the default base 10. *)
Definition np_logspace (start stop : xreal) (num : nat) : list xreal :=
  map pow10 (np_linspace start stop num).

(** The quotient of two values; as in [div_fin] a zero divisor is taken as
    [+0], and so is the zero that a finite value over an infinity gives. *)
Definition xdiv (x y : xreal) : xreal :=
  match y with
  | Fin c => div_fin x c
  | PInf | NInf => match x with Fin _ => Fin 0 | _ => NaN end
  | NaN => NaN
  end.

(** Python's [sum] of an array: a left fold from 0. *)
Definition xsum (l : list xreal) : xreal := fold_left add l (Fin 0).

End XReal.

Import XReal.

(** ** The builder in the arithmetic of the script, lines 61-69 *)

Module Builder.

(** [galsim.LookupTable(x, f, interpolant)] called on an array of
    arguments, lines 63-64 and 68.  The table is the library's: the call
    raises, or returns an array whose entries are read by their exact
    values. *)
Definition LookupTable : Type :=
  list PrimFloat.float -> list PrimFloat.float -> string ->
  list PrimFloat.float -> outcome (list xreal).

Section Builder.
Variable table : LookupTable.

(** Lines 63-64 and 68-69: the table of the two reference lists with
    [interpolant='linear'] is called on the altitudes, and the values are
    divided in place by their [sum]. *)
Definition weights (alts : list PrimFloat.float) : outcome (list xreal) :=
  w <- table Ellerbroek_alts Ellerbroek_weights "linear"%string alts ;;
  Ok (map (fun x => xdiv x (xsum w)) w).

(** Lines 61-69: the altitudes as binary64 computes them, and the weights
    the table gives there. *)
Definition layer_profile (nlayers : Z)
  : outcome (list PrimFloat.float * list xreal) :=
  a <- alts (F := PrimFloat.float) nlayers ;;
  w <- weights a ;;
  Ok (a, w).

End Builder.

End Builder.

(** ** The cutoff grid in the arithmetic of the script, line 105 *)

Module B64.

(** [y[-1] = stop]. *)
Definition set_last (y : list PrimFloat.float) (stop : PrimFloat.float)
  : list PrimFloat.float :=
  match y with
  | [] => []
  | _ :: _ => removelast y ++ [stop]
  end.

(** [np.linspace(start, stop, num)] on binary64 scalars, step by step as
    [XReal.np_linspace] has it. *)
Definition np_linspace (start stop : PrimFloat.float) (num : nat)
  : list PrimFloat.float :=
  let div := b64_of_Z (Z.of_nat (num - 1)) in
  let delta := PrimFloat.sub stop start in
  let y := map (fun i => b64_of_Z (Z.of_nat i)) (seq 0 num) in
  let y :=
    if (1 <? num)%nat then
      let step := PrimFloat.div delta div in
      if PrimFloat.eqb step PrimFloat.zero
      then map (fun i => PrimFloat.mul (PrimFloat.div i div) delta) y
      else map (fun i => PrimFloat.mul i step) y
    else map (fun i => PrimFloat.mul i delta) y in
  let y := map (fun v => PrimFloat.add v start) y in
  if (1 <? num)%nat then set_last y stop else y.

Section Logspace.

(** [np.log10] and [np.power] on binary64 are the platform's; their
    results are not fixed bit for bit, so they are left open. *)
Variable np_log10 : PrimFloat.float -> PrimFloat.float.
Variable np_power : PrimFloat.float -> PrimFloat.float -> PrimFloat.float.

(** [np.logspace(start, stop, num)] with the default base 10. *)
Definition np_logspace (start stop : PrimFloat.float) (num : nat)
  : list PrimFloat.float :=
  map (np_power (b64_of_Z 10)) (np_linspace start stop num).

(** Line 105. *)
Definition kcrits (kmin kmax : PrimFloat.float) : list PrimFloat.float :=
  np_logspace (np_log10 kmin) (np_log10 kmax) 4.

End Logspace.

End B64.

(** ** The command line *)

Module Args.

(** The parsed arguments of lines 176-227; every flag is an int, a finite
    float or a string. *)
Record t : Type := {
  seed : Z;
  r0_500 : R;
  turb_factor : R;
  L0 : R;
  nlayers : Z;
  time_step : R;
  exptime : R;
  screen_size : R;
  screen_scale : R;
  max_speed : R;
  kmin : R;
  kmax : R;
  nphot : Z;
  lam : R;
  diam : R;
  obscuration : R;
  nx : Z;
  scale : R;
  pad_factor : R;
  oversampling : R;
  outfile : string
}.

End Args.

(** ** The library interface *)

Module GalSim.

(** [value * galsim.degrees]. *)
Inductive Angle : Type :=
| Degrees (value : R).

(** The [method] of [drawImage]: the default, or photon shooting with its
    photon count. *)
Inductive draw_method : Type :=
| default_method
| phot (n_photons : Z).

(** The calls into galsim that [make_plot] makes.  A deviate is its state;
    [UniformDeviate] returns the variate and the advanced state, the two
    sharing one stream as [u = galsim.UniformDeviate(rng)] does.  The other
    calls may raise. *)
Record Lib : Type := {
  rng : Type;
  Atm : Type;
  Aper : Type;
  GSObject : Type;
  Image : Type;
  BaseDeviate : Z -> rng;
  UniformDeviate : rng -> R * rng;
  Atmosphere :
    list R -> R -> list R -> list Angle -> list R -> rng -> R -> R -> outcome Atm;
  instantiate : Atm -> xreal -> outcome Atm;
  Aperture : R -> R -> R -> Atm -> R -> R -> outcome Aper;
  makePSF : Atm -> R -> Aper -> R -> R -> outcome GSObject;
  SecondKick : R -> R -> R -> R -> xreal -> outcome GSObject;
  drawImage : GSObject -> Z -> Z -> R -> draw_method -> outcome Image;
  FindAdaptiveMom : Image -> outcome R
}.

(** Modelled from the spec: the uniform deviate is not in the file; the
    design note has it draw from the half-open unit interval. *)
Definition unit_deviate (L : Lib) : Prop :=
  forall g : rng L, (0 <= fst (UniformDeviate L g) < 1)%R.

End GalSim.

Import GalSim.

(** ** Wind and turbulence strength per layer, lines 77-96 *)

Module Layers.

Local Open Scope R_scope.

(** [weights[i]**(-3./5)] on a numpy scalar: a power of a positive base is
    a real number; a zero or negative base gives an infinity or [nan], which
    the exact reading does not follow. *)
Definition np_pow (x y : R) : outcome R :=
  if Rlt_dec 0 x then Ok (Rpower x y) else Raise (Unmodelled "non-finite power").

(** [weights[i]]. *)
Definition index (l : list R) (i : nat) : outcome R :=
  match nth_error l i with
  | Some w => Ok w
  | None => Raise (OtherError "IndexError")
  end.

Section Loop.
Variable L : Lib.

(** The lists the loop appends to, with the state of the deviate. *)
Record state : Type := {
  stream : rng L;
  spd : list R;
  dirn : list Angle;
  r0_500 : list R
}.

(** One pass of the loop body, lines 81-90 (the [print] is left out). *)
Definition layer (args : Args.t) (weights : list R) (st : state) (i : nat) : outcome state :=
  let (u1, g1) := UniformDeviate L (stream st) in
  let spd' := spd st ++ [u1 * Args.max_speed args] in
  let (u2, g2) := UniformDeviate L g1 in
  let dirn' := dirn st ++ [Degrees (u2 * 360)] in
  w <- index weights i ;;
  p <- np_pow w (-3 / 5) ;;
  Ok {| stream := g2; spd := spd'; dirn := dirn';
        r0_500 := r0_500 st ++ [Args.r0_500 args * p] |}.

Fixpoint layer_loop (args : Args.t) (weights : list R) (range : list nat) (st : state)
  : outcome state :=
  match range with
  | [] => Ok st
  | i :: range' => st' <- layer args weights st i ;; layer_loop args weights range' st'
  end.

(** Line 96: the fudge factor.  The power is evaluated once per element, so
    not at all for an empty list. *)
Definition apply_fudge (args : Args.t) (l : list R) : outcome (list R) :=
  mapM (fun r => f <- py_pow (Args.turb_factor args) (-3 / 5) ;; Ok (r * f)) l.

(** Lines 49-50 and 77-93: the deviate seeded, the lists empty, then
    [for i in range(args.nlayers)]. *)
Definition loop (args : Args.t) (weights : list R) : outcome state :=
  let rng0 := BaseDeviate L (Args.seed args) in
  layer_loop args weights (seq 0 (Z.to_nat (Args.nlayers args)))
    {| stream := rng0; spd := []; dirn := []; r0_500 := [] |}.

(** Lines 49-50 and 77-96. *)
Definition layers (args : Args.t) (weights : list R) : outcome state :=
  st <- loop args weights ;;
  r <- apply_fudge args (r0_500 st) ;;
  Ok {| stream := stream st; spd := spd st; dirn := dirn st; r0_500 := r |}.

(** The [k]-th variate of a stream, counting from 0. *)
Fixpoint draw (g : rng L) (k : nat) : R :=
  match k with
  | O => fst (UniformDeviate L g)
  | S k' => draw (snd (UniformDeviate L g)) k'
  end.

(** The stream after [k] draws. *)
Fixpoint advance (g : rng L) (k : nat) : rng L :=
  match k with
  | O => g
  | S k' => advance (snd (UniformDeviate L g)) k'
  end.

End Loop.

End Layers.

(** ** Paths and directories, as lines 166-168 use them *)

Module OS.

Local Open Scope string_scope.

Definition is_sep (c : ascii) : bool := Ascii.eqb c "/".

(** ['/' in p]. *)
Fixpoint has_sep (p : string) : bool :=
  match p with
  | EmptyString => false
  | String c r => is_sep c || has_sep r
  end.

(** [(p[:i], p[i:])] for [i = p.rfind('/') + 1]. *)
Fixpoint cut (p : string) : string * string :=
  match p with
  | EmptyString => ("", "")
  | String c r =>
      let (h, t) := cut r in
      if h =? "" then (if is_sep c then (String c "", r) else ("", String c r))
      else (String c h, t)
  end.

(** [s.rstrip('/')]. *)
Fixpoint rstrip (s : string) : string :=
  match s with
  | EmptyString => ""
  | String c r =>
      let r' := rstrip r in
      if (r' =? "") && is_sep c then "" else String c r'
  end.

(** [s == '/' * len(s)]. *)
Fixpoint all_sep (s : string) : bool :=
  match s with
  | EmptyString => true
  | String c r => is_sep c && all_sep r
  end.

(** [os.path.split] of posixpath. *)
Definition split (p : string) : string * string :=
  let (head, tail) := cut p in
  if negb (head =? "") && negb (all_sep head) then (rstrip head, tail) else (head, tail).

(** The paths that exist, each by the string that names it from the working
    directory; the root always exists and the empty path never does. *)
Definition FS : Type := list string.

(** [os.path.exists]. *)
Definition path_exists (fs : FS) (p : string) : bool :=
  if p =? "" then false
  else if p =? "/" then true
  else existsb (String.eqb p) fs.

(** [os.mkdir]: one level only.  The empty path and a path whose parent is
    missing raise [FileNotFoundError]; an existing path raises
    [FileExistsError].  A path of one component has the working directory as
    its parent.  Permissions, symbolic links and files in the place of
    directories are not modelled. *)
Definition mkdir (fs : FS) (p : string) : outcome FS :=
  if p =? "" then Raise FileNotFoundError
  else if path_exists fs p then Raise FileExistsError
  else
    let parent := fst (split p) in
    if (parent =? "") || path_exists fs parent then Ok (p :: fs)
    else Raise FileNotFoundError.

End OS.

(** ** The cutoff sweep, lines 99-164 *)

Module Sweep.

Local Open Scope R_scope.

Section Sweep.
Variable L : Lib.

(** What the script does to the library and to the figure, in order. *)
Inductive event : Type :=
| Subplots (nrows ncols : nat)
| SetXticks (row col : nat)
| SetYticks (row col : nat)
| CallAtmosphere (r0_500 : list R) (L0 : R) (speed : list R) (direction : list Angle)
    (altitude : list R) (rng : rng L) (screen_size screen_scale : R)
| CallInstantiate (atm : Atm L) (kmin : xreal)
| CallAperture (diam lam obscuration : R) (screen_list : Atm L) (pad_factor oversampling : R)
| CallMakePSF (atm : Atm L) (lam : R) (aper : Aper L) (exptime time_step : R)
| CallSecondKick (lam r0 diam obscuration : R) (kcrit : xreal)
| CallDrawImage (obj : GSObject L) (nx ny : Z) (scale : R) (method : draw_method)
| CallFindAdaptiveMom (img : Image L)
| Imshow (row col : nat) (img : Image L)
| Text (row col : nat) (moments_sigma : R)
| SetTitle (row col : nat) (kcrit : xreal)
| SetYlabel (row col : nat) (label : string)
| TightLayout
| Mkdir (dirname : string)
| Savefig (path : string).

(** A step of the script: the events it caused, and how it ended.  The
    events stay when the step raises. *)
Definition M (A : Type) : Type := (list event * outcome A)%type.

Definition ret {A : Type} (a : A) : M A := ([], Ok a).

Definition mbind {A B : Type} (m : M A) (f : A -> M B) : M B :=
  match m with
  | (t, Ok a) => let (t', r) := f a in (t ++ t', r)
  | (t, Raise e) => (t, Raise e)
  end.

Definition emit (e : event) : M unit := ([e], Ok tt).

(** A library call: logged once, then it returns or raises. *)
Definition call {A : Type} (e : event) (r : outcome A) : M A := ([e], r).

Definition lift {A : Type} (r : outcome A) : M A := ([], r).

(** [try: x = m  except RuntimeError: x = None]. *)
Definition try_except_RuntimeError {A : Type} (m : M A) : M (option A) :=
  match m with
  | (t, Ok a) => (t, Ok (Some a))
  | (t, Raise RuntimeError) => (t, Ok None)
  | (t, Raise e) => (t, Raise e)
  end.

(** [axes[row, col]] of the 2 x 4 array of line 99. *)
Definition axes (row col : nat) : M unit :=
  if ((row <? 2) && (col <? 4))%nat then ret tt else lift (Raise (OtherError "IndexError")).

Notation "x <~ m ;; k" := (mbind m (fun x => k))
  (at level 61, m at next level, right associativity).
Notation "m ;;; k" := (mbind m (fun _ => k))
  (at level 61, right associativity).

(** Lines 99-103 (attaching the canvas is left out). *)
Definition open_figure : M unit :=
  emit (Subplots 2 4) ;;;
  fold_right (fun rc k => emit (SetXticks (fst rc) (snd rc)) ;;;
                          emit (SetYticks (fst rc) (snd rc)) ;;; k)
    (ret tt)
    (list_prod (seq 0 2) (seq 0 4)).

(** Line 105: [np.logspace(np.log10(args.kmin), np.log10(args.kmax), 4)],
    without rounding; [B64.kcrits] has its steps in binary64. *)
Definition kcrits (kmin kmax : R) : list xreal :=
  np_logspace (log10 kmin) (log10 kmax) 4.

(** Lines 106 and 133: [args.r0_500*(args.lam/500.)**(6./5)]. *)
Definition r0 (args : Args.t) : outcome R :=
  p <- py_pow (Args.lam args / 500) (6 / 5) ;; Ok (Args.r0_500 args * p).

(** [if mom is not None: axes[row, icol].text(...)]. *)
Definition annotate (row icol : nat) (mom : option R) : M unit :=
  match mom with
  | Some sigma => axes row icol ;;; emit (Text row icol sigma)
  | None => ret tt
  end.

(** Lines 110-137: the screens, then the two images of one cutoff value
    (the [print]s and the progress bars are left out, the division in the
    argument of the second bar is not). *)
Definition render (args : Args.t) (st : Layers.state L) (alts : list R) (r0_ : R)
    (kcrit : xreal) : M (Image L * Image L) :=
  let atmRng := BaseDeviate L (Args.seed args + 1) in
  atm <~ call
    (CallAtmosphere (Layers.r0_500 L st) (Args.L0 args) (Layers.spd L st) (Layers.dirn L st)
       alts atmRng (Args.screen_size args) (Args.screen_scale args))
    (Atmosphere L (Layers.r0_500 L st) (Args.L0 args) (Layers.spd L st) (Layers.dirn L st)
       alts atmRng (Args.screen_size args) (Args.screen_scale args)) ;;
  atm <~ call (CallInstantiate atm (div_fin kcrit r0_))
    (instantiate L atm (div_fin kcrit r0_)) ;;
  aper <~ call
    (CallAperture (Args.diam args) (Args.lam args) (Args.obscuration args) atm
       (Args.pad_factor args) (Args.oversampling args))
    (Aperture L (Args.diam args) (Args.lam args) (Args.obscuration args) atm
       (Args.pad_factor args) (Args.oversampling args)) ;;
  lift (py_truediv (Args.exptime args) (Args.time_step args)) ;;;
  psf <~ call
    (CallMakePSF atm (Args.lam args) aper (Args.exptime args) (Args.time_step args))
    (makePSF L atm (Args.lam args) aper (Args.exptime args) (Args.time_step args)) ;;
  fftImg <~ call
    (CallDrawImage psf (Args.nx args) (Args.nx args) (Args.scale args) default_method)
    (drawImage L psf (Args.nx args) (Args.nx args) (Args.scale args) default_method) ;;
  r0' <~ lift (r0 args) ;;
  secondKick <~ call
    (CallSecondKick (Args.lam args) r0' (Args.diam args) (Args.obscuration args) kcrit)
    (SecondKick L (Args.lam args) r0' (Args.diam args) (Args.obscuration args) kcrit) ;;
  secondKickImg <~ call
    (CallDrawImage secondKick (Args.nx args) (Args.nx args) (Args.scale args)
       (phot (Args.nphot args)))
    (drawImage L secondKick (Args.nx args) (Args.nx args) (Args.scale args)
       (phot (Args.nphot args))) ;;
  ret (fftImg, secondKickImg).

(** Lines 139-159: measure both images, show them, annotate, title. *)
Definition collect (icol : nat) (kcrit : xreal) (fftImg secondKickImg : Image L) : M unit :=
  fftMom <~ try_except_RuntimeError
    (call (CallFindAdaptiveMom fftImg) (FindAdaptiveMom L fftImg)) ;;
  secondKickMom <~ try_except_RuntimeError
    (call (CallFindAdaptiveMom secondKickImg) (FindAdaptiveMom L secondKickImg)) ;;
  axes 0 icol ;;; emit (Imshow 0 icol fftImg) ;;;
  axes 1 icol ;;; emit (Imshow 1 icol secondKickImg) ;;;
  annotate 0 icol fftMom ;;;
  annotate 1 icol secondKickMom ;;;
  axes 0 icol ;;; emit (SetTitle 0 icol kcrit).

(** Lines 108-159: the body of the loop for one cutoff value. *)
Definition iteration (args : Args.t) (st : Layers.state L) (alts : list R) (r0_ : R)
    (icol : nat) (kcrit : xreal) : M unit :=
  imgs <~ render args st alts r0_ kcrit ;;
  collect icol kcrit (fst imgs) (snd imgs).

(** Line 107: [for icol, kcrit in enumerate(kcrits)], from column [icol]
    on. *)
Fixpoint sweep (args : Args.t) (st : Layers.state L) (alts : list R) (r0_ : R)
    (icol : nat) (ks : list xreal) : M unit :=
  match ks with
  | [] => ret tt
  | kcrit :: ks' =>
      iteration args st alts r0_ icol kcrit ;;;
      sweep args st alts r0_ (S icol) ks'
  end.

(** Lines 161-164. *)
Definition close_figure : M unit :=
  axes 0 0 ;;; emit (SetYlabel 0 0 "FFT") ;;;
  axes 1 0 ;;; emit (SetYlabel 1 0 "2nd kick") ;;;
  emit TightLayout.

(** Lines 47-164: everything up to the composed figure. *)
Definition compose (args : Args.t) : M unit :=
  p <~ lift (layer_profile (Args.nlayers args)) ;;
  st <~ lift (Layers.layers L args (snd p)) ;;
  open_figure ;;;
  r0_ <~ lift (r0 args) ;;
  sweep args st (fst p) r0_ 0 (kcrits (Args.kmin args) (Args.kmax args)) ;;;
  close_figure.

(** Lines 166-169: [os.path.split], [os.path.exists], [os.mkdir] and
    [fig.savefig] (whose own failures are not modelled). *)
Definition save (fs : OS.FS) (outfile : string) : list event * OS.FS * outcome unit :=
  let (dirname, filename) := OS.split outfile in
  if OS.path_exists fs dirname then ([Savefig outfile], outfile :: fs, Ok tt)
  else
    match OS.mkdir fs dirname with
    | Ok fs' => ([Mkdir dirname; Savefig outfile], outfile :: fs', Ok tt)
    | Raise e => ([Mkdir dirname], fs, Raise e)
    end.

(** [make_plot(args)] on a file system: the events, the file system left
    behind, and how the run ended. *)
Definition make_plot (args : Args.t) (fs : OS.FS) : list event * OS.FS * outcome unit :=
  match compose args with
  | (t, Ok _) =>
      let '(t', fs', r) := save fs (Args.outfile args) in (t ++ t', fs', r)
  | (t, Raise e) => (t, fs, Raise e)
  end.

(** *** Reading a trace *)

Definition is_atmosphere (e : event) : bool :=
  match e with CallAtmosphere _ _ _ _ _ _ _ _ => true | _ => false end.

Definition is_measurement (e : event) : bool :=
  match e with CallFindAdaptiveMom _ => true | _ => false end.

(** The arguments of the [drawImage] calls, in order. *)
Fixpoint draws (t : list event) : list (Z * Z * R * draw_method) :=
  match t with
  | [] => []
  | CallDrawImage _ nx ny scale method :: t' => (nx, ny, scale, method) :: draws t'
  | _ :: t' => draws t'
  end.

(** The titled columns with their cutoff values, in order. *)
Fixpoint titles (t : list event) : list (nat * xreal) :=
  match t with
  | [] => []
  | SetTitle _ col kcrit :: t' => (col, kcrit) :: titles t'
  | _ :: t' => titles t'
  end.

(** The construction of the screen stack, line 112, as an event. *)
Definition screens (args : Args.t) (st : Layers.state L) (alts : list R) : event :=
  CallAtmosphere (Layers.r0_500 L st) (Args.L0 args) (Layers.spd L st) (Layers.dirn L st)
    alts (BaseDeviate L (Args.seed args + 1)) (Args.screen_size args)
    (Args.screen_scale args).

(** The arguments of the two [drawImage] calls, lines 131 and 136-137. *)
Definition fft_draw (args : Args.t) : Z * Z * R * draw_method :=
  (Args.nx args, Args.nx args, Args.scale args, default_method).

Definition phot_draw (args : Args.t) : Z * Z * R * draw_method :=
  (Args.nx args, Args.nx args, Args.scale args, phot (Args.nphot args)).

(** The annotation a measurement leads to: its size when it returned one,
    nothing otherwise. *)
Definition annotation (row icol : nat) (mom : outcome R) : list event :=
  match mom with
  | Ok sigma => [Text row icol sigma]
  | Raise _ => []
  end.

(** No call of the library raises, except that the size fit may fail with
    a [RuntimeError]. *)
Definition never_aborts : Prop :=
  (forall r0s l0 spd dirn alts g size scale,
      exists atm, Atmosphere L r0s l0 spd dirn alts g size scale = Ok atm) /\
  (forall atm k, exists atm', instantiate L atm k = Ok atm') /\
  (forall d l o atm p s, exists aper, Aperture L d l o atm p s = Ok aper) /\
  (forall atm l aper e ts, exists psf, makePSF L atm l aper e ts = Ok psf) /\
  (forall l r d o k, exists sk, SecondKick L l r d o k = Ok sk) /\
  (forall obj nx ny sc m, exists img, drawImage L obj nx ny sc m = Ok img) /\
  (forall img e, FindAdaptiveMom L img = Raise e -> e = RuntimeError).

(** The panels [(row, col)] that were given an image, in order. *)
Fixpoint shown (t : list event) : list (nat * nat) :=
  match t with
  | [] => []
  | Imshow row col _ :: t' => (row, col) :: shown t'
  | _ :: t' => shown t'
  end.

(** The [kmin] the screens were instantiated with, line 116. *)
Fixpoint kmins (t : list event) : list xreal :=
  match t with
  | [] => []
  | CallInstantiate _ kmin :: t' => kmin :: kmins t'
  | _ :: t' => kmins t'
  end.

(** The [r0] and [kcrit] the second kick was built from, lines 133-135. *)
Fixpoint kicks (t : list event) : list (R * xreal) :=
  match t with
  | [] => []
  | CallSecondKick _ r0 _ _ kcrit :: t' => (r0, kcrit) :: kicks t'
  | _ :: t' => kicks t'
  end.

End Sweep.


End Sweep.

(** ** Stand-ins for the library and the command line *)

Module Examples.

Local Open Scope R_scope.

(** A library without content: every object is [tt], every variate is 1/2,
    every call returns, and the size fit ends as [mom] says. *)
Definition stub (mom : outcome R) : Lib := {|
  rng := unit;
  Atm := unit;
  Aper := unit;
  GSObject := unit;
  Image := unit;
  BaseDeviate := fun _ => tt;
  UniformDeviate := fun _ => (1 / 2, tt);
  Atmosphere := fun _ _ _ _ _ _ _ _ => Ok tt;
  instantiate := fun _ _ => Ok tt;
  Aperture := fun _ _ _ _ _ _ => Ok tt;
  makePSF := fun _ _ _ _ _ => Ok tt;
  SecondKick := fun _ _ _ _ _ => Ok tt;
  drawImage := fun _ _ _ _ _ => Ok tt;
  FindAdaptiveMom := fun _ => mom
|}.

(** The defaults of lines 176-225, with the output path left open. *)
Definition defaults_to (outfile : string) : Args.t := {|
  Args.seed := 1;
  Args.r0_500 := 15 / 100;
  Args.turb_factor := 1;
  Args.L0 := 25;
  Args.nlayers := 6;
  Args.time_step := 25 / 1000;
  Args.exptime := 30;
  Args.screen_size := 1024 / 10;
  Args.screen_scale := 125 / 10000;
  Args.max_speed := 20;
  Args.kmin := 5 / 100;
  Args.kmax := 5 / 10;
  Args.nphot := 3000000;
  Args.lam := 700;
  Args.diam := 836 / 100;
  Args.obscuration := 61 / 100;
  Args.nx := 64;
  Args.scale := 4 / 100;
  Args.pad_factor := 1;
  Args.oversampling := 1;
  Args.outfile := outfile
|}.

Definition defaults : Args.t := defaults_to "output/secondKick.png".

(** The defaults with another layer count, fudge factor and time step. *)
Definition custom (nlayers : Z) (turb_factor time_step : R) : Args.t := {|
  Args.seed := 1;
  Args.r0_500 := 15 / 100;
  Args.turb_factor := turb_factor;
  Args.L0 := 25;
  Args.nlayers := nlayers;
  Args.time_step := time_step;
  Args.exptime := 30;
  Args.screen_size := 1024 / 10;
  Args.screen_scale := 125 / 10000;
  Args.max_speed := 20;
  Args.kmin := 5 / 100;
  Args.kmax := 5 / 10;
  Args.nphot := 3000000;
  Args.lam := 700;
  Args.diam := 836 / 100;
  Args.obscuration := 61 / 100;
  Args.nx := 64;
  Args.scale := 4 / 100;
  Args.pad_factor := 1;
  Args.oversampling := 1;
  Args.outfile := "output/secondKick.png"
|}.

(** A library whose images are what was asked for: the size fit returns
    for the image drawn by the default method and raises [e] for the
    photon-shot one. *)
Definition picky (e : exn) : Lib := {|
  rng := unit;
  Atm := unit;
  Aper := unit;
  GSObject := unit;
  Image := draw_method;
  BaseDeviate := fun _ => tt;
  UniformDeviate := fun _ => (1 / 2, tt);
  Atmosphere := fun _ _ _ _ _ _ _ _ => Ok tt;
  instantiate := fun _ _ => Ok tt;
  Aperture := fun _ _ _ _ _ _ => Ok tt;
  makePSF := fun _ _ _ _ _ => Ok tt;
  SecondKick := fun _ _ _ _ _ => Ok tt;
  drawImage := fun _ _ _ _ m => Ok m;
  FindAdaptiveMom := fun img =>
    match img with default_method => Ok 1 | phot _ => Raise e end
|}.

(** A stand-in for the lookup table: every argument gets the value [w]. *)
Definition flat_table (w : R) : Builder.LookupTable :=
  fun _ _ _ a => Ok (map (fun _ => Fin w) a).

(** The altitudes of the default six layers, as line 67 computes them. *)
Definition six_altitudes : list PrimFloat.float :=
  match alts 6 with Ok a => a | Raise _ => [] end.

(** The state of the layer loop before its first pass. *)
Definition no_layers (mom : outcome R) : Layers.state (stub mom) := {|
  Layers.stream := tt : rng (stub mom);
  Layers.spd := [];
  Layers.dirn := [];
  Layers.r0_500 := []
|}.

End Examples.

(** * Properties *)

(** ** Lists and exact arithmetic *)

Lemma nth_map_lt {A B : Type} (f : A -> B) (l : list A) (i : nat) (d : B) (d' : A) :
  (i < length l)%nat -> nth i (map f l) d = f (nth i l d').
Proof.
  revert i; induction l as [|a l IH]; intros [|i] Hi; cbn in *; try lia; auto.
  apply IH; lia.
Qed.

Lemma last_as_nth {A : Type} (l : list A) (d : A) : last l d = nth (length l - 1) l d.
Proof.
  induction l as [|a l IH]; [reflexivity|].
  destruct l as [|b l]; [reflexivity|].
  change (last (a :: b :: l) d) with (last (b :: l) d). rewrite IH.
  cbn [length]. rewrite !Nat.sub_succ, !Nat.sub_0_r. reflexivity.
Qed.

Lemma hd_as_nth {A : Type} (l : list A) (d : A) : hd d l = nth 0 l d.
Proof. now destruct l. Qed.

Lemma mapM_Ok {A B : Type} (f : A -> outcome B) (P : A -> B -> Prop) (l : list A) :
  (forall a, In a l -> exists b, f a = Ok b /\ P a b) ->
  exists bs, mapM f l = Ok bs /\ Forall2 P l bs.
Proof.
  induction l as [|a l IH]; intros Hf.
  - exists []. split; [reflexivity | constructor].
  - destruct (Hf a (or_introl eq_refl)) as (b & Hb & HP).
    destruct IH as (bs & Hbs & HF); [intros; apply Hf; now right|].
    exists (b :: bs). cbn. rewrite Hb. cbn. rewrite Hbs. cbn.
    split; [reflexivity | now constructor].
Qed.

Local Open Scope R_scope.

Lemma Rltb_true (x y : R) : Rltb x y = true <-> x < y.
Proof.
  unfold Rltb. destruct (Rlt_dec x y); split; intros; auto; discriminate.
Qed.

Lemma Rltb_false (x y : R) : Rltb x y = false <-> y <= x.
Proof.
  unfold Rltb. destruct (Rlt_dec x y); split; intros; auto; try discriminate; lra.
Qed.

Lemma fmax_lt (a b : R) : a < b -> fmax (F := R) a b = b.
Proof. intros Hlt. unfold fmax; cbn. now rewrite (proj2 (Rltb_true a b) Hlt). Qed.

(** ** The altitude grid in exact arithmetic *)

Lemma np_max_exact : np_max (F := R) Ellerbroek_alts = Ok (1546 / 100).
Proof.
  unfold np_max, Ellerbroek_alts, dec. cbn [fold_left of_Z div exact].
  repeat match goal with
         | |- context [fmax ?a ?b] => rewrite (fmax_lt a b) by lra
         end.
  reflexivity.
Qed.

Lemma alts_exact (n : Z) : alts (F := R) n = Ok (exact_grid n).
Proof. unfold alts. rewrite np_max_exact. reflexivity. Qed.

Lemma np_arange_length (n : Z) : length (np_arange n) = Z.to_nat n.
Proof. unfold np_arange. now rewrite length_map, length_seq. Qed.

Lemma np_arange_nth (n : Z) (i : nat) (d : Z) :
  (i < Z.to_nat n)%nat -> nth i (np_arange n) d = Z.of_nat i.
Proof.
  intros Hi. unfold np_arange.
  rewrite (nth_map_lt _ _ _ _ 0%nat) by now rewrite length_seq.
  now rewrite seq_nth.
Qed.

Section Grid.
Variable n : Z.
Hypothesis two_layers : (2 <= n)%Z.

Lemma grid_length : length (exact_grid n) = Z.to_nat n.
Proof. unfold exact_grid. now rewrite length_map, np_arange_length. Qed.

Lemma grid_nth (i : nat) :
  (i < Z.to_nat n)%nat -> nth i (exact_grid n) 0 = 1546 / 100 * INR i / IZR (n - 1).
Proof.
  intros Hi. unfold exact_grid.
  rewrite (nth_map_lt _ _ _ _ 0%Z) by now rewrite np_arange_length.
  rewrite np_arange_nth by assumption.
  now rewrite INR_IZR_INZ.
Qed.

Lemma grid_spacing_pos : 0 < IZR (n - 1).
Proof. apply IZR_lt; lia. Qed.

Lemma grid_first : hd 0 (exact_grid n) = 0.
Proof.
  pose proof grid_spacing_pos.
  rewrite hd_as_nth, grid_nth by lia. cbn [INR]. field. lra.
Qed.

Lemma grid_last : last (exact_grid n) 0 = 1546 / 100.
Proof.
  pose proof grid_spacing_pos.
  rewrite last_as_nth, grid_length, grid_nth by lia.
  rewrite INR_IZR_INZ. replace (Z.of_nat (Z.to_nat n - 1)) with (n - 1)%Z by lia.
  field. lra.
Qed.

Lemma grid_step (i : nat) :
  (S i < Z.to_nat n)%nat -> nth (S i) (exact_grid n) 0 - nth i (exact_grid n) 0 = 1546 / 100 / IZR (n - 1).
Proof.
  pose proof grid_spacing_pos.
  intros Hi. rewrite !grid_nth by lia. rewrite S_INR. field. lra.
Qed.

Lemma grid_monotone (i j : nat) :
  (i <= j < Z.to_nat n)%nat -> nth i (exact_grid n) 0 <= nth j (exact_grid n) 0.
Proof.
  pose proof grid_spacing_pos.
  intros Hij. rewrite !grid_nth by lia.
  assert (INR i <= INR j) by (apply le_INR; lia).
  apply Rmult_le_compat_r; [left; now apply Rinv_0_lt_compat|].
  apply Rmult_le_compat_l; lra.
Qed.

Lemma grid_in_range (x : R) : In x (exact_grid n) -> 0 <= x <= 1546 / 100.
Proof.
  pose proof grid_spacing_pos as Hpos.
  intros Hin. unfold exact_grid in Hin. apply in_map_iff in Hin as (i & <- & Hi).
  unfold np_arange in Hi. apply in_map_iff in Hi as (k & <- & Hk). apply in_seq in Hk.
  assert (Hk0 : 0 <= IZR (Z.of_nat k)) by (apply IZR_le; lia).
  assert (Hk1 : IZR (Z.of_nat k) <= IZR (n - 1)) by (apply IZR_le; lia).
  split.
  - apply Rmult_le_pos; [nra | left; now apply Rinv_0_lt_compat].
  - apply (Rmult_le_reg_r (IZR (n - 1))); [lra|].
    unfold Rdiv. rewrite Rmult_assoc, Rinv_l by lra. nra.
Qed.

End Grid.

(** ** Interpolation and renormalisation *)

Lemma linear_interp_pos (tab : list (R * R)) (x : R) (d : R * R) :
  table_ok tab -> (2 <= length tab)%nat ->
  fst (hd d tab) <= x <= fst (last tab d) ->
  exists w, linear_interp tab x = Some w /\ 0 < w.
Proof.
  induction tab as [|[x0 f0] rest IH]; cbn [length]; [lia|].
  destruct rest as [|[x1 f1] rest']; cbn [length]; [lia|].
  intros (Hf0 & Hx01 & Hok) _ [Hlo Hhi]. cbn [hd fst] in Hlo.
  cbn [linear_interp].
  rewrite (proj2 (Rltb_false x x0)) by lra.
  destruct (Rltb x1 x) eqn:E.
  - apply Rltb_true in E.
    change (last ((x0, f0) :: (x1, f1) :: rest') d) with (last ((x1, f1) :: rest') d) in Hhi.
    apply IH; auto.
    + destruct rest'; cbn [length]; [cbn in Hhi; lra | lia].
    + cbn [hd fst]. lra.
  - apply Rltb_false in E. eexists; split; [reflexivity|].
    destruct Hok as (Hf1 & _).
    set (t := (x - x0) / (x1 - x0)).
    assert (Ht : 0 <= t <= 1).
    { unfold t; split.
      - apply Rmult_le_pos; [lra | left; apply Rinv_0_lt_compat; lra].
      - apply (Rmult_le_reg_r (x1 - x0)); [lra|].
        unfold Rdiv. rewrite Rmult_assoc, Rinv_l by lra. lra. }
    replace (f0 + (x - x0) * (f1 - f0) / (x1 - x0)) with (f0 * (1 - t) + f1 * t)
      by (unfold t; field; lra).
    nra.
Qed.

Lemma Ellerbroek_table_ok : table_ok Ellerbroek_table.
Proof.
  unfold Ellerbroek_table, Ellerbroek_alts, Ellerbroek_weights, dec; cbn.
  repeat split; lra.
Qed.

Lemma Ellerbroek_interp_pos (x : R) :
  0 <= x <= 1546 / 100 ->
  exists w, Ellerbroek_interp x = Ok w /\ 0 < w /\ linear_interp Ellerbroek_table x = Some w.
Proof.
  intros Hx.
  destruct (linear_interp_pos Ellerbroek_table x (0, 0)) as (w & Hw & Hpos).
  - apply Ellerbroek_table_ok.
  - cbn. lia.
  - cbn. lra.
  - exists w. unfold Ellerbroek_interp. rewrite Hw. auto.
Qed.

Lemma fold_left_Rplus_acc (l : list R) (a : R) : fold_left Rplus l a = a + fold_left Rplus l 0.
Proof.
  revert a; induction l as [|x l IH]; intros a; cbn.
  - lra.
  - rewrite IH, (IH (0 + x)). lra.
Qed.

Lemma py_sum_cons (x : R) (l : list R) : py_sum (x :: l) = x + py_sum l.
Proof. unfold py_sum; cbn. rewrite fold_left_Rplus_acc. lra. Qed.

Lemma py_sum_scaled (l : list R) (s : R) : py_sum (map (fun x => x / s) l) = py_sum l / s.
Proof.
  induction l as [|x l IH].
  - unfold py_sum; cbn. lra.
  - cbn [map]. rewrite !py_sum_cons, IH. lra.
Qed.

Lemma py_sum_pos (l : list R) : l <> [] -> Forall (fun w => 0 < w) l -> 0 < py_sum l.
Proof.
  intros Hne Hall. induction Hall as [|x l Hx Hl IH]; [congruence|].
  rewrite py_sum_cons. destruct l as [|y l].
  - unfold py_sum; cbn. lra.
  - assert (0 < py_sum (y :: l)) by (apply IH; discriminate). lra.
Qed.

(** The profile of [n >= 2] layers, spelled out: the grid, the interpolated
    weights, all positive, and their renormalisation. *)
Lemma layer_profile_exact (n : Z) :
  (2 <= n)%Z ->
  exists a raw,
    alts n = Ok a /\
    length a = Z.to_nat n /\
    Forall2 (fun x w => linear_interp Ellerbroek_table x = Some w) a raw /\
    Forall (fun w => 0 < w) raw /\
    0 < py_sum raw /\
    layer_profile n = Ok (a, map (fun w => w / py_sum raw) raw).
Proof.
  intros Hn.
  set (a := exact_grid n).
  destruct (mapM_Ok Ellerbroek_interp
              (fun x w => 0 < w /\ linear_interp Ellerbroek_table x = Some w) a)
    as (raw & Hraw & HF).
  { intros x Hx. destruct (Ellerbroek_interp_pos x) as (w & ? & ? & ?); eauto.
    eapply grid_in_range; eauto. }
  assert (Hlen : length raw = Z.to_nat n).
  { rewrite <- (Forall2_length HF). now apply grid_length. }
  assert (Hall : Forall (fun w => 0 < w) raw).
  { clear -HF. induction HF; constructor; tauto. }
  assert (Hsum : 0 < py_sum raw).
  { apply py_sum_pos; auto. destruct raw; [cbn in Hlen; lia | discriminate]. }
  exists a, raw. repeat split; auto.
  - apply alts_exact.
  - now apply grid_length.
  - clear -HF. induction HF; constructor; tauto.
  - unfold layer_profile, weights. rewrite (proj2 (Z.eqb_neq n 1)) by lia.
    rewrite alts_exact. fold a. cbn. rewrite Hraw. reflexivity.
Qed.

Lemma nth_error_as_nth {A : Type} (l : list A) (i : nat) (d : A) :
  (i < length l)%nat -> nth_error l i = Some (nth i l d).
Proof. intros Hi. now apply nth_error_nth'. Qed.

(** ** The binary64 grid *)

Lemma b64_grid_checked :
  forallb (fun k => b64_grid_ok (Z.of_nat k + 2)) (seq 0 1023) = true.
Proof. vm_compute. reflexivity. Qed.

Lemma b64_grid_ok_upto (n : Z) : (2 <= n <= 1024)%Z -> b64_grid_ok n = true.
Proof.
  intros Hn. pose proof b64_grid_checked as Hc.
  rewrite forallb_forall in Hc.
  replace n with (Z.of_nat (Z.to_nat (n - 2)) + 2)%Z by lia.
  apply Hc. apply in_seq. lia.
Qed.

(** The literal 15.46 and the grids of two and of six layers, as binary64
    values: six layers end on 15.460000000000003. *)
Module Binary64.

Import PrimFloat.

Example literal_15_46 : dec 1546 100 = 0x1.eeb851eb851ecp+3%float.
Proof. reflexivity. Qed.

Example alts_2 : alts 2 = Ok [0x0p+0; 0x1.eeb851eb851ecp+3]%float.
Proof. reflexivity. Qed.

Example alts_6 :
  alts 6 = Ok [0x0p+0; 0x1.8bc6a7ef9db23p+1; 0x1.8bc6a7ef9db23p+2;
               0x1.28d4fdf3b645ap+3; 0x1.8bc6a7ef9db23p+3; 0x1.eeb851eb851edp+3]%float.
Proof. reflexivity. Qed.

End Binary64.

(** ** The builder on the binary64 grid *)

Lemma xsum_fin (raw : list R) : xsum (map Fin raw) = Fin (py_sum raw).
Proof.
  unfold xsum, py_sum. generalize 0.
  induction raw as [|x raw IH]; intros acc; cbn; [reflexivity | apply IH].
Qed.

Lemma xdiv_fin (x s : R) : s <> 0 -> xdiv (Fin x) (Fin s) = Fin (x / s).
Proof.
  intros Hs. unfold xdiv, div_fin. destruct (Req_dec_T s 0) as [E|_]; [contradiction|].
  cbn. f_equal. now field.
Qed.

Lemma alts_b64_length (n : Z) (a : list PrimFloat.float) :
  alts n = Ok a -> length a = Z.to_nat n.
Proof.
  unfold alts. cbn [np_max Ellerbroek_alts bind]. intros [= <-].
  now rewrite length_map, np_arange_length.
Qed.

Lemma builder_run (table : Builder.LookupTable) (n : Z) (a : list PrimFloat.float)
    (raw : list R) :
  alts n = Ok a ->
  table Ellerbroek_alts Ellerbroek_weights "linear"%string a = Ok (map Fin raw) ->
  py_sum raw <> 0 ->
  Builder.layer_profile table n
  = Ok (a, map Fin (map (fun w => w / py_sum raw) raw)).
Proof.
  intros Ha Ht Hs. unfold Builder.layer_profile, Builder.weights.
  rewrite Ha. cbn [bind]. rewrite Ht. cbn [bind]. rewrite xsum_fin.
  do 2 f_equal. rewrite !map_map. apply map_ext. intros x. now apply xdiv_fin.
Qed.

Lemma py_sum_bounds_member (l : list R) (x : R) :
  Forall (fun w => 0 < w) l -> In x l -> x <= py_sum l.
Proof.
  intros Hall. induction Hall as [|y l Hy Hl IH]; intros Hin; [contradiction|].
  rewrite py_sum_cons. destruct Hin as [-> | Hin].
  - destruct l as [|z l]; [unfold py_sum; cbn; lra|].
    pose proof (py_sum_pos (z :: l) ltac:(discriminate) Hl). lra.
  - specialize (IH Hin). lra.
Qed.

Lemma renormalised_bounds (raw : list R) :
  raw <> [] -> Forall (fun w => 0 < w) raw ->
  Forall (fun w => 0 < w <= 1) (map (fun w => w / py_sum raw) raw).
Proof.
  intros Hne Hpos. pose proof (py_sum_pos raw Hne Hpos) as Hs.
  apply Forall_map, Forall_forall. intros w Hw.
  pose proof (py_sum_bounds_member raw w Hpos Hw) as Hle.
  rewrite Forall_forall in Hpos. specialize (Hpos w Hw).
  split; [now apply Rdiv_lt_0_compat|].
  apply (Rmult_le_reg_r (py_sum raw)); [exact Hs|].
  unfold Rdiv. rewrite Rmult_assoc, Rinv_l by lra. lra.
Qed.

(** ** C1, C2, C8: the layer-profile builder *)

(** C1.  The builder as the script runs it: the altitudes are those of
    line 67 in binary64, the table of the two 6-entry reference lists with
    linear interpolation is called on them, and its values are divided by
    their sum.  For every layer count [n], whenever the table returns one
    finite value per altitude with a nonzero sum, the builder returns [n]
    weights, each the table's value over the sum, and in exact arithmetic
    the weights sum to 1; when the table's values are positive, each weight
    lies in (0, 1]. *)
Theorem weights_sum_to_one (table : Builder.LookupTable) (n : Z)
    (a : list PrimFloat.float) (raw : list R) :
  alts n = Ok a ->
  table Ellerbroek_alts Ellerbroek_weights "linear"%string a = Ok (map Fin raw) ->
  length raw = length a ->
  py_sum raw <> 0 ->
  let ws := map (fun w => w / py_sum raw) raw in
  length (Ellerbroek_alts (F := PrimFloat.float)) = 6%nat /\
  length (Ellerbroek_weights (F := PrimFloat.float)) = 6%nat /\
  length a = Z.to_nat n /\
  Builder.layer_profile table n = Ok (a, map Fin ws) /\
  length ws = Z.to_nat n /\
  py_sum ws = 1 /\
  (Forall (fun w => 0 < w) raw -> Forall (fun w => 0 < w <= 1) ws).
Proof.
  intros Ha Ht Hlen Hsum ws.
  pose proof (alts_b64_length n a Ha) as Hn.
  split; [reflexivity|]. split; [reflexivity|]. split; [exact Hn|].
  split; [now apply builder_run|].
  split; [unfold ws; now rewrite length_map, Hlen|].
  split; [unfold ws; rewrite py_sum_scaled; now field|].
  intros Hpos. apply renormalised_bounds; [|exact Hpos].
  intros ->. apply Hsum. reflexivity.
Qed.

Lemma weights_sum_to_one_witness :
  let table := Examples.flat_table (22 / 1000) in
  let a := Examples.six_altitudes in
  let raw := repeat (22 / 1000) 6 in
  let ws := map (fun w => w / py_sum raw) raw in
  length (Ellerbroek_alts (F := PrimFloat.float)) = 6%nat /\
  length (Ellerbroek_weights (F := PrimFloat.float)) = 6%nat /\
  length a = Z.to_nat 6 /\
  Builder.layer_profile table 6 = Ok (a, map Fin ws) /\
  length ws = Z.to_nat 6 /\
  py_sum ws = 1 /\
  (Forall (fun w => 0 < w) raw -> Forall (fun w => 0 < w <= 1) ws).
Proof.
  apply (weights_sum_to_one (Examples.flat_table (22 / 1000)) 6 Examples.six_altitudes
           (repeat (22 / 1000) 6)).
  - reflexivity.
  - reflexivity.
  - reflexivity.
  - unfold py_sum. cbn. lra.
Defined.

(** C2, as stated, fails: with one layer the altitude computation of line 67
    does not raise. *)
Lemma one_layer_does_not_raise : ~ raises (alts (F := PrimFloat.float) 1).
Proof. intros (e & He). vm_compute in He. discriminate. Qed.

(** C2, amended.  With [nlayers = 1] line 67 divides the array [[0.0]] by the
    integer 0 elementwise; the quotient is the one-entry array holding [nan],
    and the computation returns it. *)
Theorem one_layer_altitude_is_nan :
  exists a, alts (F := PrimFloat.float) 1 = Ok [a] /\ PrimFloat.is_nan a = true.
Proof. eexists. split; vm_compute; reflexivity. Qed.

(** C8, as stated, fails in the arithmetic of the script: with the default
    six layers the last altitude is [15.46 * 5 / 5], which rounds to a value
    above the table's maximum 15.46. *)
Lemma six_layers_overshoot_table : ~ spans_table (F := PrimFloat.float) 6.
Proof.
  intros (a & amax & first & final & Ha & Hm & Hf & Hl & _ & Heq).
  vm_compute in Ha. injection Ha as <-.
  vm_compute in Hm. injection Hm as <-.
  vm_compute in Hl. injection Hl as <-.
  apply (f_equal (PrimFloat.ltb (dec 1546 100))) in Heq.
  vm_compute in Heq. discriminate.
Qed.

(** C8, amended.  For every [n >= 2], in exact arithmetic the [n] altitudes
    start at 0, end on the table's maximum, are spaced by [max / (n - 1)] and
    do not decrease; in binary64, for every [n] from 2 to 1024, the first
    altitude is 0, the altitudes do not decrease, consecutive altitudes
    differ by [max / (n - 1)] to within 2^-47, and the last is within 2^-49
    (one unit in the last place) of the maximum. *)
Theorem altitudes_span_table (n : Z) :
  (2 <= n)%Z ->
  spans_table (F := R) n /\
  (exists a amax,
     alts (F := R) n = Ok a /\ np_max Ellerbroek_alts = Ok amax /\
     length a = Z.to_nat n /\
     uniform_grid a (amax / IZR (n - 1)) /\
     nondecreasing a) /\
  ((n <= 1024)%Z -> b64_grid_ok n = true).
Proof.
  intros Hn. split; [|split].
  - eexists _, _, 0, (1546 / 100). rewrite alts_exact, np_max_exact.
    repeat split.
    + rewrite (nth_error_as_nth _ _ 0) by (rewrite grid_length; lia).
      f_equal. rewrite <- hd_as_nth. now apply grid_first.
    + rewrite (nth_error_as_nth _ _ 0) by (rewrite grid_length; lia).
      f_equal. rewrite <- last_as_nth. now apply grid_last.
  - eexists _, _. rewrite alts_exact, np_max_exact. repeat split.
    + apply grid_length.
    + intros i Hi. rewrite grid_length in Hi. now apply grid_step.
    + intros i j Hij. rewrite grid_length in Hij. now apply grid_monotone.
  - intros Hle. apply b64_grid_ok_upto. lia.
Qed.

Lemma altitudes_span_table_witness :
  spans_table (F := R) 6 /\
  (exists a amax,
     alts (F := R) 6 = Ok a /\ np_max Ellerbroek_alts = Ok amax /\
     length a = Z.to_nat 6 /\
     uniform_grid a (amax / IZR (6 - 1)) /\
     nondecreasing a) /\
  ((6 <= 1024)%Z -> b64_grid_ok 6 = true).
Proof. apply (altitudes_span_table 6). lia. Defined.

(** ** The layer loop *)

Section LayerFacts.
Variable L : Lib.
Variable args : Args.t.
Variable ws : list R.

Lemma draw_advance (g : rng L) (a b : nat) :
  Layers.draw L (Layers.advance L g a) b = Layers.draw L g (a + b).
Proof. revert g; induction a as [|a IH]; intros g; cbn; auto. Qed.

Lemma advance_add (g : rng L) (a b : nat) :
  Layers.advance L (Layers.advance L g a) b = Layers.advance L g (a + b).
Proof. revert g; induction a as [|a IH]; intros g; cbn; auto. Qed.

Lemma index_nth (i : nat) : (i < length ws)%nat -> Layers.index ws i = Ok (nth i ws 0).
Proof. intros Hi. unfold Layers.index. now rewrite (nth_error_as_nth _ _ 0). Qed.

Lemma np_pow_pos (x y : R) : 0 < x -> Layers.np_pow x y = Ok (Rpower x y).
Proof. intros Hx. unfold Layers.np_pow. destruct (Rlt_dec 0 x); [reflexivity | contradiction]. Qed.

Lemma layer_step (st : Layers.state L) (i : nat) :
  (i < length ws)%nat -> 0 < nth i ws 0 ->
  Layers.layer L args ws st i = Ok {|
    Layers.stream := Layers.advance L (Layers.stream L st) 2;
    Layers.spd := Layers.spd L st ++ [Layers.draw L (Layers.stream L st) 0 * Args.max_speed args];
    Layers.dirn := Layers.dirn L st ++ [Degrees (Layers.draw L (Layers.stream L st) 1 * 360)];
    Layers.r0_500 := Layers.r0_500 L st ++ [Args.r0_500 args * Rpower (nth i ws 0) (-3 / 5)]
  |}.
Proof.
  intros Hi Hw. unfold Layers.layer. cbn [Layers.advance Layers.draw].
  destruct (UniformDeviate L (Layers.stream L st)) as [u1 g1]. cbn [fst snd].
  destruct (UniformDeviate L g1) as [u2 g2]. cbn [fst snd].
  rewrite index_nth by assumption. cbn [bind]. rewrite np_pow_pos by assumption. reflexivity.
Qed.

Lemma layer_loop_run (m k : nat) (st : Layers.state L) :
  (forall i, (k <= i < k + m)%nat -> (i < length ws)%nat /\ 0 < nth i ws 0) ->
  Layers.layer_loop L args ws (seq k m) st = Ok {|
    Layers.stream := Layers.advance L (Layers.stream L st) (2 * m);
    Layers.spd := Layers.spd L st ++
      map (fun j => Layers.draw L (Layers.stream L st) (2 * j) * Args.max_speed args) (seq 0 m);
    Layers.dirn := Layers.dirn L st ++
      map (fun j => Degrees (Layers.draw L (Layers.stream L st) (2 * j + 1) * 360)) (seq 0 m);
    Layers.r0_500 := Layers.r0_500 L st ++
      map (fun i => Args.r0_500 args * Rpower (nth i ws 0) (-3 / 5)) (seq k m)
  |}.
Proof.
  revert k st; induction m as [|m IH]; intros k st Hws.
  - cbn. rewrite !app_nil_r. now destruct st.
  - cbn [seq Layers.layer_loop].
    destruct (Hws k) as [Hk Hpos]; [lia|].
    rewrite layer_step by assumption. cbn [bind].
    rewrite IH by (intros; apply Hws; lia).
    cbn [Layers.stream Layers.spd Layers.dirn Layers.r0_500].
    rewrite advance_add. rewrite <- !app_assoc. cbn [app map].
    rewrite <- !seq_shift, !map_map.
    assert (Hd : forall j c, Layers.draw L (Layers.advance L (Layers.stream L st) 2) (2 * j + c)
                      = Layers.draw L (Layers.stream L st) (2 * S j + c)).
    { intros j c. rewrite draw_advance. f_equal. lia. }
    f_equal. f_equal.
    + f_equal. lia.
    + f_equal. f_equal. apply map_ext. intros j.
      rewrite <- (Nat.add_0_r (2 * j)), Hd, Nat.add_0_r. reflexivity.
    + f_equal. f_equal. apply map_ext. intros j. now rewrite Hd.
Qed.
End LayerFacts.

Lemma map_nth_seq {A B : Type} (f : A -> B) (l : list A) (d : A) :
  map (fun i => f (nth i l d)) (seq 0 (length l)) = map f l.
Proof.
  induction l as [|a l IH]; [reflexivity|].
  cbn [length seq map nth]. f_equal. rewrite <- seq_shift, map_map. exact IH.
Qed.

Lemma profile_weights_pos (n : Z) :
  (2 <= n)%Z ->
  exists a ws, layer_profile n = Ok (a, ws) /\ length ws = Z.to_nat n /\
               Forall (fun w => 0 < w) ws.
Proof.
  intros Hn.
  destruct (layer_profile_exact n Hn) as (a & raw & Ha & Hlen & HF & Hpos & Hsum & Hp).
  exists a, (map (fun w => w / py_sum raw) raw). repeat split; auto.
  - rewrite length_map, <- (Forall2_length HF). exact Hlen.
  - apply Forall_map. eapply Forall_impl; [|exact Hpos].
    intros w Hw. cbn. apply Rdiv_lt_0_compat; assumption.
Qed.

Lemma py_pow_pos (x y : R) : 0 < x -> py_pow x y = Ok (Rpower x y).
Proof. intros Hx. unfold py_pow. destruct (Rlt_dec 0 x); [reflexivity | contradiction]. Qed.

Lemma mapM_total {A B : Type} (f : A -> outcome B) (g : A -> B) (l : list A) :
  (forall a, f a = Ok (g a)) -> mapM f l = Ok (map g l).
Proof.
  intros Hf. induction l as [|a l IH]; [reflexivity|].
  cbn [mapM map]. rewrite Hf, IH. reflexivity.
Qed.

Section LayersRun.
Variable L : Lib.
Variable args : Args.t.
Variable ws : list R.
Hypothesis ws_length : length ws = Z.to_nat (Args.nlayers args).
Hypothesis ws_pos : Forall (fun w => 0 < w) ws.

Lemma loop_run :
  Layers.loop L args ws = Ok {|
    Layers.stream := Layers.advance L (BaseDeviate L (Args.seed args)) (2 * Z.to_nat (Args.nlayers args));
    Layers.spd := map (fun j => Layers.draw L (BaseDeviate L (Args.seed args)) (2 * j) * Args.max_speed args) (seq 0 (Z.to_nat (Args.nlayers args)));
    Layers.dirn := map (fun j => Degrees (Layers.draw L (BaseDeviate L (Args.seed args)) (2 * j + 1) * 360)) (seq 0 (Z.to_nat (Args.nlayers args)));
    Layers.r0_500 := map (fun w => Args.r0_500 args * Rpower w (-3 / 5)) ws
  |}.
Proof.
  unfold Layers.loop. rewrite layer_loop_run.
  - cbn [Layers.stream Layers.spd Layers.dirn Layers.r0_500 app].
    do 2 f_equal. rewrite <- ws_length.
    apply (map_nth_seq (fun w => Args.r0_500 args * Rpower w (-3 / 5))).
  - intros i Hi. split; [lia|].
    rewrite Forall_forall in ws_pos. apply ws_pos. apply nth_In. lia.
Qed.

Lemma apply_fudge_run (l : list R) :
  0 < Args.turb_factor args ->
  Layers.apply_fudge args l = Ok (map (fun r => r * Rpower (Args.turb_factor args) (-3 / 5)) l).
Proof.
  intros Htf. unfold Layers.apply_fudge. apply mapM_total.
  intros r. now rewrite py_pow_pos.
Qed.

Lemma layers_run :
  0 < Args.turb_factor args ->
  Layers.layers L args ws = Ok {|
    Layers.stream := Layers.advance L (BaseDeviate L (Args.seed args)) (2 * Z.to_nat (Args.nlayers args));
    Layers.spd := map (fun j => Layers.draw L (BaseDeviate L (Args.seed args)) (2 * j) * Args.max_speed args) (seq 0 (Z.to_nat (Args.nlayers args)));
    Layers.dirn := map (fun j => Degrees (Layers.draw L (BaseDeviate L (Args.seed args)) (2 * j + 1) * 360)) (seq 0 (Z.to_nat (Args.nlayers args)));
    Layers.r0_500 :=
      map (fun w => Args.r0_500 args * Rpower w (-3 / 5) * Rpower (Args.turb_factor args) (-3 / 5)) ws
  |}.
Proof.
  intros Htf. unfold Layers.layers. rewrite loop_run. cbn [bind Layers.r0_500].
  rewrite apply_fudge_run by assumption. cbn [bind Layers.stream Layers.spd Layers.dirn].
  now rewrite map_map.
Qed.

End LayersRun.

Lemma Rpower_neg_decreasing (x y e : R) : 0 < x -> x < y -> e < 0 -> Rpower y e < Rpower x e.
Proof.
  intros Hx Hxy He. unfold Rpower. apply exp_increasing.
  assert (ln x < ln y) by (apply ln_increasing; lra). nra.
Qed.

Lemma Rpower_pos (x e : R) : 0 < Rpower x e.
Proof. unfold Rpower. apply exp_pos. Qed.

Lemma draw_unit (L : Lib) (g : rng L) (k : nat) :
  unit_deviate L -> 0 <= Layers.draw L g k < 1.
Proof. intros Hu. revert g; induction k as [|k IH]; intros g; cbn; auto. Qed.

(** ** C5, C7: wind and turbulence strength *)

(** C5.  The wind loop consumes the first [2 * nlayers] variates of the
    stream seeded with [seed], in order: for layer [i] the speed is variate
    [2 * i] times [max_speed] and the direction is variate [2 * i + 1] times
    a full turn.  So two runs with the same seed and layer count have the
    same directions, and the same speeds when [max_speed] agrees too; with
    variates in [[0, 1)] the speeds lie in [[0, max_speed)] and the
    directions in [[0, 360)] degrees. *)
Theorem wind_assignment_reproducible (L : Lib) (args args' : Args.t) :
  (2 <= Args.nlayers args)%Z ->
  Args.seed args' = Args.seed args ->
  Args.nlayers args' = Args.nlayers args ->
  let g := BaseDeviate L (Args.seed args) in
  let n := Z.to_nat (Args.nlayers args) in
  exists a ws st st',
    layer_profile (Args.nlayers args) = Ok (a, ws) /\
    Layers.loop L args ws = Ok st /\
    Layers.loop L args' ws = Ok st' /\
    Layers.spd L st = map (fun i => Layers.draw L g (2 * i) * Args.max_speed args) (seq 0 n) /\
    Layers.dirn L st = map (fun i => Degrees (Layers.draw L g (2 * i + 1) * 360)) (seq 0 n) /\
    Layers.stream L st = Layers.advance L g (2 * n) /\
    Layers.dirn L st' = Layers.dirn L st /\
    (Args.max_speed args' = Args.max_speed args -> Layers.spd L st' = Layers.spd L st) /\
    (unit_deviate L -> 0 < Args.max_speed args ->
       Forall (fun s => 0 <= s < Args.max_speed args) (Layers.spd L st) /\
       Forall (fun d => match d with Degrees v => 0 <= v < 360 end) (Layers.dirn L st)).
Proof.
  intros Hn Hseed Hlayers g n.
  destruct (profile_weights_pos _ Hn) as (a & ws & Hp & Hlen & Hpos).
  assert (Hlen' : length ws = Z.to_nat (Args.nlayers args')) by now rewrite Hlayers.
  eexists a, ws, _, _. split; [exact Hp|].
  split; [apply loop_run; assumption|].
  split; [apply loop_run; assumption|].
  cbn [Layers.stream Layers.spd Layers.dirn]. rewrite Hseed, Hlayers. fold g n.
  repeat split; auto.
  - intros ->. reflexivity.
  - apply Forall_map, Forall_forall. intros i _.
    pose proof (draw_unit L g (2 * i) H). nra.
  - apply Forall_map, Forall_forall. intros i _.
    pose proof (draw_unit L g (2 * i + 1) H). lra.
Qed.

Lemma wind_assignment_reproducible_witness :
  let L := Examples.stub (Ok 1) in
  let args := Examples.defaults in
  let g := BaseDeviate L (Args.seed args) in
  let n := Z.to_nat (Args.nlayers args) in
  exists a ws st st',
    layer_profile (Args.nlayers args) = Ok (a, ws) /\
    Layers.loop L args ws = Ok st /\
    Layers.loop L args ws = Ok st' /\
    Layers.spd L st = map (fun i => Layers.draw L g (2 * i) * Args.max_speed args) (seq 0 n) /\
    Layers.dirn L st = map (fun i => Degrees (Layers.draw L g (2 * i + 1) * 360)) (seq 0 n) /\
    Layers.stream L st = Layers.advance L g (2 * n) /\
    Layers.dirn L st' = Layers.dirn L st /\
    (Args.max_speed args = Args.max_speed args -> Layers.spd L st' = Layers.spd L st) /\
    (unit_deviate L -> 0 < Args.max_speed args ->
       Forall (fun s => 0 <= s < Args.max_speed args) (Layers.spd L st) /\
       Forall (fun d => match d with Degrees v => 0 <= v < 360 end) (Layers.dirn L st)).
Proof.
  apply (wind_assignment_reproducible (Examples.stub (Ok 1)) Examples.defaults Examples.defaults).
  - cbn. lia.
  - reflexivity.
  - reflexivity.
Defined.

(** C7.  Each layer's Fried parameter is the net value times the layer's
    weight to the power -3/5, and the fudge factor to the power -3/5
    multiplies every layer alike; for a positive net value the result
    decreases strictly as the weight grows. *)
Theorem fried_parameter_power_law (L : Lib) (args : Args.t) :
  (2 <= Args.nlayers args)%Z ->
  0 < Args.turb_factor args ->
  let r0_of := fun w => Args.r0_500 args * Rpower w (-3 / 5)
                        * Rpower (Args.turb_factor args) (-3 / 5) in
  exists a ws st,
    layer_profile (Args.nlayers args) = Ok (a, ws) /\
    Layers.layers L args ws = Ok st /\
    Layers.r0_500 L st = map r0_of ws /\
    (0 < Args.r0_500 args ->
       (forall w1 w2, 0 < w1 -> w1 < w2 -> r0_of w2 < r0_of w1) /\
       (forall i j, (i < length ws)%nat -> (j < length ws)%nat ->
          nth i ws 0 < nth j ws 0 ->
          nth j (Layers.r0_500 L st) 0 < nth i (Layers.r0_500 L st) 0)).
Proof.
  intros Hn Htf r0_of.
  destruct (profile_weights_pos _ Hn) as (a & ws & Hp & Hlen & Hpos).
  eexists a, ws, _. split; [exact Hp|].
  split; [apply layers_run; assumption|].
  cbn [Layers.r0_500]. split; [reflexivity|].
  intros Hnet.
  assert (Hmono : forall w1 w2, 0 < w1 -> w1 < w2 -> r0_of w2 < r0_of w1).
  { intros w1 w2 H1 H12. unfold r0_of.
    pose proof (Rpower_neg_decreasing w1 w2 (-3 / 5) H1 H12 ltac:(lra)).
    pose proof (Rpower_pos (Args.turb_factor args) (-3 / 5)).
    apply Rmult_lt_compat_r; [assumption|].
    apply Rmult_lt_compat_l; assumption. }
  split; [exact Hmono|].
  intros i j Hi Hj Hij.
  rewrite !(nth_map_lt r0_of ws _ 0 0) by assumption.
  apply Hmono; [|assumption].
  rewrite Forall_forall in Hpos. apply Hpos, nth_In, Hi.
Qed.

Lemma fried_parameter_power_law_witness :
  let L := Examples.stub (Ok 1) in
  let args := Examples.defaults in
  let r0_of := fun w => Args.r0_500 args * Rpower w (-3 / 5)
                        * Rpower (Args.turb_factor args) (-3 / 5) in
  exists a ws st,
    layer_profile (Args.nlayers args) = Ok (a, ws) /\
    Layers.layers L args ws = Ok st /\
    Layers.r0_500 L st = map r0_of ws /\
    (0 < Args.r0_500 args ->
       (forall w1 w2, 0 < w1 -> w1 < w2 -> r0_of w2 < r0_of w1) /\
       (forall i j, (i < length ws)%nat -> (j < length ws)%nat ->
          nth i ws 0 < nth j ws 0 ->
          nth j (Layers.r0_500 L st) 0 < nth i (Layers.r0_500 L st) 0)).
Proof.
  apply (fried_parameter_power_law (Examples.stub (Ok 1)) Examples.defaults).
  - cbn. lia.
  - cbn. lra.
Defined.

(** ** The cutoff grid *)

Lemma set_last_length (y : list xreal) (s : xreal) : length (set_last y s) = length y.
Proof.
  destruct y as [|a y]; [reflexivity|]. unfold set_last.
  rewrite length_app. cbn [length].
  assert (H := removelast_app [a] (l' := y)).
  destruct y as [|b y]; [reflexivity|].
  pose proof (@app_removelast_last _ (a :: b :: y) NaN ltac:(discriminate)) as E.
  apply (f_equal (@length _)) in E. rewrite length_app in E. cbn [length] in *. lia.
Qed.

Lemma kcrits_length (kmin kmax : R) : length (Sweep.kcrits kmin kmax) = 4%nat.
Proof.
  unfold Sweep.kcrits, np_logspace, np_linspace. rewrite length_map.
  cbn [Nat.ltb Nat.leb]. rewrite set_last_length, length_map.
  destruct (is_zero _); now rewrite !length_map, length_seq.
Qed.











Lemma log10_nonpos (x : R) : x <= 0 -> log10 x = NaN \/ log10 x = NInf.
Proof.
  intros Hx. unfold log10.
  destruct (Rlt_dec 0 x); [lra|]. destruct (Rlt_dec x 0); auto.
Qed.

Lemma kcrits_nonpositive_kmin (kmin kmax : R) :
  kmin <= 0 -> Sweep.kcrits kmin kmax = [NaN; NaN; NaN; pow10 (log10 kmax)].
Proof.
  intros Hmin. unfold Sweep.kcrits, np_logspace, np_linspace.
  cbn [Nat.ltb Nat.leb Nat.sub seq map].
  unfold div_fin. destruct (Req_dec_T (INR 3) 0) as [E|_]; [cbn in E; lra|].
  assert (H3 : 0 < / INR 3) by (apply Rinv_0_lt_compat; cbn; lra).
  destruct (log10_nonpos kmin Hmin) as [-> | ->]; destruct (log10 kmax) as [b| | |];
    repeat first
      [ progress cbn [sub neg add scale is_zero map set_last removelast app pow10]
      | match goal with
        | |- context [Rlt_dec ?a ?b] => destruct (Rlt_dec a b); try (cbn in *; lra)
        end ];
    reflexivity.
Qed.

(** ** Steps and their traces *)

Section Traces.
Variable L : Lib.

Lemma mbind_events {A B : Type} (m : Sweep.M L A) (f : A -> Sweep.M L B) :
  fst (Sweep.mbind L m f)
  = fst m ++ match snd m with Ok a => fst (f a) | Raise _ => [] end.
Proof.
  destruct m as [t [a|e]]; cbn.
  - now destruct (f a).
  - now rewrite app_nil_r.
Qed.

Lemma mbind_outcome {A B : Type} (m : Sweep.M L A) (f : A -> Sweep.M L B) :
  snd (Sweep.mbind L m f)
  = match snd m with Ok a => snd (f a) | Raise e => Raise e end.
Proof.
  destruct m as [t [a|e]]; cbn; [|reflexivity]. now destruct (f a).
Qed.

Lemma draws_app (t t' : list (Sweep.event L)) :
  Sweep.draws L (t ++ t') = Sweep.draws L t ++ Sweep.draws L t'.
Proof.
  induction t as [|e t IH]; [reflexivity|].
  destruct e; cbn; rewrite ?IH; reflexivity.
Qed.

Lemma titles_app (t t' : list (Sweep.event L)) :
  Sweep.titles L (t ++ t') = Sweep.titles L t ++ Sweep.titles L t'.
Proof.
  induction t as [|e t IH]; [reflexivity|].
  destruct e; cbn; rewrite ?IH; reflexivity.
Qed.

Lemma axes_in_range (row col : nat) :
  (row < 2)%nat -> (col < 4)%nat -> Sweep.axes L row col = ([], Ok tt).
Proof.
  intros Hr Hc. unfold Sweep.axes.
  rewrite (proj2 (Nat.ltb_lt row 2) Hr), (proj2 (Nat.ltb_lt col 4) Hc). reflexivity.
Qed.

Lemma axes_events (row col : nat) : fst (Sweep.axes L row col) = [].
Proof. unfold Sweep.axes. now destruct (_ && _). Qed.

Variable args : Args.t.
Variable st : Layers.state L.
Variable alts : list R.
Variable r0_ : R.

Ltac run_step :=
  match goal with
  | |- context [match ?r with Ok _ => _ | Raise _ => _ end] =>
      destruct r eqn:?; cbn [fst snd app]
  | |- context [let (_, _) := ?p in _] => destruct p eqn:?; cbn [fst snd app]
  | |- context [if ?b then _ else _] => destruct b eqn:?; cbn [fst snd app]
  end.

Lemma render_trace (kcrit : xreal) :
  exists rest,
    fst (Sweep.render L args st alts r0_ kcrit) = (Sweep.screens L args st alts) :: rest /\
    filter (Sweep.is_atmosphere L) rest = [] /\
    Sweep.titles L rest = [] /\
    (Sweep.draws L rest = [] \/ Sweep.draws L rest = [(Sweep.fft_draw args)]
     \/ Sweep.draws L rest = [(Sweep.fft_draw args); (Sweep.phot_draw args)]) /\
    (forall imgs, snd (Sweep.render L args st alts r0_ kcrit) = Ok imgs ->
       Sweep.draws L rest = [(Sweep.fft_draw args); (Sweep.phot_draw args)]).
Proof.
  unfold Sweep.render.
  rewrite !mbind_events, !mbind_outcome. cbn [Sweep.call Sweep.lift Sweep.ret fst snd app].
  eexists; split; [reflexivity|].
  repeat (run_step; rewrite ?mbind_events, ?mbind_outcome;
          cbn [Sweep.call Sweep.lift Sweep.ret fst snd app]).
  all: cbn; repeat split; auto; try discriminate.
Qed.

Lemma render_returns (kcrit : xreal) :
  Sweep.never_aborts L -> Args.time_step args <> 0 ->
  (exists r, Sweep.r0 args = Ok r) ->
  exists t imgs, Sweep.render L args st alts r0_ kcrit = (t, Ok imgs).
Proof.
  intros (Hatm & Hinst & Haper & Hpsf & Hsk & Hdraw & _) Hts [r Hr].
  unfold Sweep.render.
  destruct (Hatm (Layers.r0_500 L st) (Args.L0 args) (Layers.spd L st) (Layers.dirn L st)
              alts (BaseDeviate L (Args.seed args + 1)) (Args.screen_size args)
              (Args.screen_scale args)) as [atm ->].
  cbn [Sweep.call Sweep.mbind].
  destruct (Hinst atm (div_fin kcrit r0_)) as [atm' ->].
  destruct (Haper (Args.diam args) (Args.lam args) (Args.obscuration args) atm'
              (Args.pad_factor args) (Args.oversampling args)) as [aper ->].
  unfold py_truediv. destruct (Req_dec_T (Args.time_step args) 0); [contradiction|].
  cbn [Sweep.lift Sweep.mbind].
  destruct (Hpsf atm' (Args.lam args) aper (Args.exptime args) (Args.time_step args))
    as [psf ->].
  destruct (Hdraw psf (Args.nx args) (Args.nx args) (Args.scale args) default_method)
    as [fftImg ->].
  rewrite Hr.
  destruct (Hsk (Args.lam args) r (Args.diam args) (Args.obscuration args) kcrit) as [sk ->].
  destruct (Hdraw sk (Args.nx args) (Args.nx args) (Args.scale args) (phot (Args.nphot args)))
    as [skImg ->].
  cbn. eauto.
Qed.

(** What [collect] does when neither fit raises anything but
    [RuntimeError]. *)
Lemma collect_run (icol : nat) (kcrit : xreal) (fftImg skImg : Image L) :
  (icol < 4)%nat ->
  (forall e, FindAdaptiveMom L fftImg = Raise e -> e = RuntimeError) ->
  (forall e, FindAdaptiveMom L skImg = Raise e -> e = RuntimeError) ->
  Sweep.collect L icol kcrit fftImg skImg
  = ([Sweep.CallFindAdaptiveMom L fftImg; Sweep.CallFindAdaptiveMom L skImg;
      Sweep.Imshow L 0 icol fftImg; Sweep.Imshow L 1 icol skImg]
     ++ Sweep.annotation L 0 icol (FindAdaptiveMom L fftImg)
     ++ Sweep.annotation L 1 icol (FindAdaptiveMom L skImg)
     ++ [Sweep.SetTitle L 0 icol kcrit],
     Ok tt).
Proof.
  intros Hcol H1 H2. unfold Sweep.collect, Sweep.annotate.
  destruct (FindAdaptiveMom L fftImg) as [s1|e1];
    [|rewrite (H1 e1 eq_refl)];
    (destruct (FindAdaptiveMom L skImg) as [s2|e2];
      [|rewrite (H2 e2 eq_refl)]);
    rewrite !axes_in_range by lia; reflexivity.
Qed.

Lemma collect_trace (icol : nat) (kcrit : xreal) (fftImg skImg : Image L) :
  filter (Sweep.is_atmosphere L) (fst (Sweep.collect L icol kcrit fftImg skImg)) = [] /\
  Sweep.draws L (fst (Sweep.collect L icol kcrit fftImg skImg)) = [].
Proof.
  unfold Sweep.collect, Sweep.annotate, Sweep.axes, Sweep.try_except_RuntimeError.
  cbn [Sweep.call].
  destruct (FindAdaptiveMom L fftImg) as [s1|[]];
    destruct (FindAdaptiveMom L skImg) as [s2|[]];
    destruct (icol <? 4)%nat; cbn; auto.
Qed.

Lemma iteration_events (icol : nat) (kcrit : xreal) :
  fst (Sweep.iteration L args st alts r0_ icol kcrit)
  = fst (Sweep.render L args st alts r0_ kcrit)
    ++ match snd (Sweep.render L args st alts r0_ kcrit) with
       | Ok imgs => fst (Sweep.collect L icol kcrit (fst imgs) (snd imgs))
       | Raise _ => []
       end.
Proof. unfold Sweep.iteration. apply mbind_events. Qed.

Lemma iteration_outcome (icol : nat) (kcrit : xreal) :
  snd (Sweep.iteration L args st alts r0_ icol kcrit)
  = match snd (Sweep.render L args st alts r0_ kcrit) with
    | Ok imgs => snd (Sweep.collect L icol kcrit (fst imgs) (snd imgs))
    | Raise e => Raise e
    end.
Proof. unfold Sweep.iteration. apply mbind_outcome. Qed.

Lemma iteration_atmosphere (icol : nat) (kcrit : xreal) :
  filter (Sweep.is_atmosphere L) (fst (Sweep.iteration L args st alts r0_ icol kcrit))
  = [(Sweep.screens L args st alts)].
Proof.
  rewrite iteration_events.
  destruct (render_trace kcrit) as (rest & -> & Hf & _).
  rewrite filter_app. cbn [filter Sweep.is_atmosphere Sweep.screens]. rewrite Hf.
  destruct (snd (Sweep.render L args st alts r0_ kcrit)) as [imgs|e]; [|reflexivity].
  now rewrite (proj1 (collect_trace icol kcrit (fst imgs) (snd imgs))).
Qed.

Lemma iteration_draws (icol : nat) (kcrit : xreal) :
  let ds := Sweep.draws L (fst (Sweep.iteration L args st alts r0_ icol kcrit)) in
  (ds = [] \/ ds = [(Sweep.fft_draw args)] \/ ds = [(Sweep.fft_draw args); (Sweep.phot_draw args)]) /\
  (snd (Sweep.iteration L args st alts r0_ icol kcrit) = Ok tt ->
   ds = [(Sweep.fft_draw args); (Sweep.phot_draw args)]).
Proof.
  cbn zeta. rewrite iteration_events, iteration_outcome.
  destruct (render_trace kcrit) as (rest & -> & _ & _ & Hd & Hok).
  rewrite draws_app. cbn [Sweep.draws Sweep.screens].
  destruct (snd (Sweep.render L args st alts r0_ kcrit)) as [imgs|e].
  - rewrite (proj2 (collect_trace icol kcrit (fst imgs) (snd imgs))), app_nil_r.
    rewrite (Hok imgs eq_refl). auto.
  - rewrite app_nil_r. split; [exact Hd | discriminate].
Qed.

Lemma sweep_events (icol : nat) (kcrit : xreal) (ks : list xreal) :
  fst (Sweep.sweep L args st alts r0_ icol (kcrit :: ks))
  = fst (Sweep.iteration L args st alts r0_ icol kcrit)
    ++ match snd (Sweep.iteration L args st alts r0_ icol kcrit) with
       | Ok _ => fst (Sweep.sweep L args st alts r0_ (S icol) ks)
       | Raise _ => []
       end.
Proof. cbn [Sweep.sweep]. apply mbind_events. Qed.

Lemma sweep_outcome (icol : nat) (kcrit : xreal) (ks : list xreal) :
  snd (Sweep.sweep L args st alts r0_ icol (kcrit :: ks))
  = match snd (Sweep.iteration L args st alts r0_ icol kcrit) with
    | Ok _ => snd (Sweep.sweep L args st alts r0_ (S icol) ks)
    | Raise e => Raise e
    end.
Proof. cbn [Sweep.sweep]. apply mbind_outcome. Qed.

Lemma sweep_atmosphere (icol : nat) (ks : list xreal) :
  exists k, (k <= length ks)%nat /\
    filter (Sweep.is_atmosphere L) (fst (Sweep.sweep L args st alts r0_ icol ks))
    = repeat (Sweep.screens L args st alts) k /\
    (snd (Sweep.sweep L args st alts r0_ icol ks) = Ok tt -> k = length ks).
Proof.
  revert icol; induction ks as [|kcrit ks IH]; intros icol.
  - exists 0%nat. cbn. auto.
  - rewrite sweep_events, sweep_outcome, filter_app, iteration_atmosphere.
    destruct (snd (Sweep.iteration L args st alts r0_ icol kcrit)) as [[]|e].
    + destruct (IH (S icol)) as (k & Hk & -> & Hok).
      exists (S k). cbn [length repeat app]. split; [lia|]. split; [reflexivity|].
      intros H. now rewrite (Hok H).
    + exists 1%nat. cbn [length repeat filter app]. split; [lia|].
      split; [reflexivity | discriminate].
Qed.

Lemma sweep_draws (icol : nat) (ks : list xreal) :
  Forall (fun d => d = (Sweep.fft_draw args) \/ d = (Sweep.phot_draw args))
    (Sweep.draws L (fst (Sweep.sweep L args st alts r0_ icol ks))) /\
  (snd (Sweep.sweep L args st alts r0_ icol ks) = Ok tt ->
   Sweep.draws L (fst (Sweep.sweep L args st alts r0_ icol ks))
   = concat (repeat [(Sweep.fft_draw args); (Sweep.phot_draw args)] (length ks))).
Proof.
  revert icol; induction ks as [|kcrit ks IH]; intros icol.
  - cbn. auto.
  - rewrite sweep_events, sweep_outcome, draws_app.
    destruct (iteration_draws icol kcrit) as [Hd Hok]. cbn zeta in Hd, Hok.
    assert (Hall : Forall (fun d => d = (Sweep.fft_draw args) \/ d = (Sweep.phot_draw args))
              (Sweep.draws L (fst (Sweep.iteration L args st alts r0_ icol kcrit)))).
    { destruct Hd as [-> | [-> | ->]]; repeat (constructor; auto). }
    destruct (snd (Sweep.iteration L args st alts r0_ icol kcrit)) as [[]|e].
    + destruct (IH (S icol)) as [IHall IHok]. split.
      * apply Forall_app; auto.
      * intros H. rewrite (Hok eq_refl), (IHok H). reflexivity.
    + rewrite app_nil_r. split; [exact Hall | discriminate].
Qed.

Lemma sweep_returns (icol : nat) (ks : list xreal) :
  Sweep.never_aborts L -> Args.time_step args <> 0 ->
  (exists r, Sweep.r0 args = Ok r) ->
  (icol + length ks <= 4)%nat ->
  snd (Sweep.sweep L args st alts r0_ icol ks) = Ok tt /\
  Sweep.titles L (fst (Sweep.sweep L args st alts r0_ icol ks))
  = combine (seq icol (length ks)) ks.
Proof.
  intros Hlib Hts Hr0. revert icol; induction ks as [|kcrit ks IH]; intros icol Hcol.
  - cbn. auto.
  - cbn [length] in Hcol.
    rewrite sweep_events, sweep_outcome, titles_app, iteration_events, iteration_outcome.
    destruct (render_returns kcrit Hlib Hts Hr0) as (t & imgs & Hrender).
    destruct (render_trace kcrit) as (rest & Ht & _ & Htitles & _).
    rewrite Hrender in *. cbn [fst snd] in *. subst t.
    destruct Hlib as (_ & _ & _ & _ & _ & _ & Hfit).
    rewrite collect_run by (try lia; apply Hfit). cbn [fst snd].
    destruct (IH (S icol) ltac:(lia)) as [-> ->].
    split; [reflexivity|].
    rewrite titles_app. cbn [Sweep.titles Sweep.screens]. rewrite Htitles.
    destruct (FindAdaptiveMom L (fst imgs)); destruct (FindAdaptiveMom L (snd imgs));
      reflexivity.
Qed.
End Traces.

(** ** The stand-ins behave *)

Lemma stub_never_aborts (mom : outcome R) :
  (forall e, mom = Raise e -> e = RuntimeError) -> Sweep.never_aborts (Examples.stub mom).
Proof. intros Hmom. unfold Sweep.never_aborts. cbn. repeat split; intros; eauto. Qed.

Lemma r0_defaults (outfile : string) :
  Sweep.r0 (Examples.defaults_to outfile) = Ok (15 / 100 * Rpower (700 / 500) (6 / 5)).
Proof.
  unfold Sweep.r0, py_pow. cbn.
  destruct (Rlt_dec 0 (700 / 500)) as [_|E]; [reflexivity | lra].
Qed.

Lemma render_defaults (mom : outcome R) (st : Layers.state (Examples.stub mom))
    (alts : list R) (r0_ : R) (kcrit : xreal) :
  exists t, Sweep.render (Examples.stub mom) Examples.defaults st alts r0_ kcrit
            = (t, Ok (tt, tt)).
Proof.
  unfold Sweep.render, py_truediv, Examples.defaults. rewrite r0_defaults. cbn.
  destruct (Req_dec_T (25 / 1000) 0) as [E|_]; [lra|].
  cbn. eexists. reflexivity.
Qed.

Lemma sweep_defaults (mom : outcome R) (st : Layers.state (Examples.stub mom))
    (alts : list R) (r0_ : R) (kmin kmax : R) :
  (forall e, mom = Raise e -> e = RuntimeError) ->
  snd (Sweep.sweep (Examples.stub mom) Examples.defaults st alts r0_ 0
         (Sweep.kcrits kmin kmax)) = Ok tt.
Proof.
  intros Hmom.
  pose proof (sweep_returns (Examples.stub mom) Examples.defaults st alts r0_ 0
                (Sweep.kcrits kmin kmax)) as H.
  rewrite kcrits_length in H. apply H.
  - now apply stub_never_aborts.
  - cbn. lra.
  - eexists. apply r0_defaults.
  - lia.
Qed.

Lemma compose_defaults (mom : outcome R) (outfile : string) :
  (forall e, mom = Raise e -> e = RuntimeError) ->
  exists t, Sweep.compose (Examples.stub mom) (Examples.defaults_to outfile) = (t, Ok tt).
Proof.
  intros Hmom. unfold Sweep.compose.
  destruct (profile_weights_pos 6 ltac:(lia)) as (a & ws & Hp & Hlen & Hpos).
  change (Args.nlayers (Examples.defaults_to outfile)) with 6%Z. rewrite Hp.
  cbn [Sweep.lift Sweep.mbind snd fst].
  rewrite (layers_run (Examples.stub mom) (Examples.defaults_to outfile) ws Hlen Hpos)
    by (cbn; lra).
  rewrite r0_defaults.
  match goal with
  | |- context [Sweep.sweep ?L ?args ?st ?al ?r 0%nat ?ks] =>
      pose proof (sweep_returns L args st al r 0 ks) as Hs;
      destruct (Sweep.sweep L args st al r 0%nat ks) as [ts rs] eqn:Es
  end.
  cbn [fst snd] in Hs.
  destruct Hs as [-> _].
  - now apply stub_never_aborts.
  - cbn. lra.
  - eexists. apply r0_defaults.
  - cbn [Args.kmin Args.kmax Examples.defaults_to]. rewrite kcrits_length. lia.
  - cbn. eexists. reflexivity.
Qed.

(** ** C3, C4, C6, C9: the cutoff sweep *)





(** C4.  Let the two images of a cutoff value be rendered, and let each size
    fit either return or fail with a [RuntimeError].  Then each fit is called
    once, both images are shown in the column, an image whose fit failed gets
    no annotation (the other its size), the column is titled, and the loop
    goes on with the next cutoff value. *)
Theorem failed_fit_is_skipped (L : Lib) (args : Args.t) (st : Layers.state L)
    (alts : list R) (r0_ : R) (icol : nat) (kcrit : xreal) (ks : list xreal)
    (t : list (Sweep.event L)) (fftImg secondKickImg : Image L) :
  (icol < 4)%nat ->
  Sweep.render L args st alts r0_ kcrit = (t, Ok (fftImg, secondKickImg)) ->
  (forall e, FindAdaptiveMom L fftImg = Raise e -> e = RuntimeError) ->
  (forall e, FindAdaptiveMom L secondKickImg = Raise e -> e = RuntimeError) ->
  Sweep.sweep L args st alts r0_ icol (kcrit :: ks)
  = (t ++ [Sweep.CallFindAdaptiveMom L fftImg; Sweep.CallFindAdaptiveMom L secondKickImg;
           Sweep.Imshow L 0 icol fftImg; Sweep.Imshow L 1 icol secondKickImg]
       ++ Sweep.annotation L 0 icol (FindAdaptiveMom L fftImg)
       ++ Sweep.annotation L 1 icol (FindAdaptiveMom L secondKickImg)
       ++ [Sweep.SetTitle L 0 icol kcrit]
       ++ fst (Sweep.sweep L args st alts r0_ (S icol) ks),
     snd (Sweep.sweep L args st alts r0_ (S icol) ks)) /\
  filter (Sweep.is_measurement L) (fst (Sweep.collect L icol kcrit fftImg secondKickImg))
  = [Sweep.CallFindAdaptiveMom L fftImg; Sweep.CallFindAdaptiveMom L secondKickImg] /\
  (FindAdaptiveMom L fftImg = Raise RuntimeError ->
     Sweep.annotation L 0 icol (FindAdaptiveMom L fftImg) = []) /\
  (FindAdaptiveMom L secondKickImg = Raise RuntimeError ->
     Sweep.annotation L 1 icol (FindAdaptiveMom L secondKickImg) = []).
Proof.
  intros Hcol Hrender H1 H2. split; [|split].
  - cbn [Sweep.sweep]. unfold Sweep.iteration. rewrite Hrender.
    cbn [Sweep.mbind fst snd]. rewrite collect_run by assumption.
    cbn [Sweep.mbind].
    destruct (Sweep.sweep L args st alts r0_ (S icol) ks) as [t' r]. cbn [fst snd].
    f_equal. rewrite <- !app_assoc. reflexivity.
  - rewrite collect_run by assumption. cbn [fst].
    destruct (FindAdaptiveMom L fftImg); destruct (FindAdaptiveMom L secondKickImg);
      reflexivity.
  - split; intros ->; reflexivity.
Qed.

Lemma failed_fit_is_skipped_witness :
  let L := Examples.stub (Raise RuntimeError) in
  let st := Examples.no_layers (Raise RuntimeError) in
  exists t,
    Sweep.sweep L Examples.defaults st [] 1 0 [Fin (5 / 100)]
    = (t ++ [Sweep.CallFindAdaptiveMom L tt; Sweep.CallFindAdaptiveMom L tt;
             Sweep.Imshow L 0 0 tt; Sweep.Imshow L 1 0 tt]
         ++ Sweep.annotation L 0 0 (FindAdaptiveMom L tt)
         ++ Sweep.annotation L 1 0 (FindAdaptiveMom L tt)
         ++ [Sweep.SetTitle L 0 0 (Fin (5 / 100))]
         ++ fst (Sweep.sweep L Examples.defaults st [] 1 1 []),
       snd (Sweep.sweep L Examples.defaults st [] 1 1 [])) /\
    filter (Sweep.is_measurement L) (fst (Sweep.collect L 0 (Fin (5 / 100)) tt tt))
    = [Sweep.CallFindAdaptiveMom L tt; Sweep.CallFindAdaptiveMom L tt] /\
    (FindAdaptiveMom L tt = Raise RuntimeError ->
       Sweep.annotation L 0 0 (FindAdaptiveMom L tt) = []) /\
    (FindAdaptiveMom L tt = Raise RuntimeError ->
       Sweep.annotation L 1 0 (FindAdaptiveMom L tt) = []).
Proof.
  intros L st.
  destruct (render_defaults (Raise RuntimeError) st [] 1 (Fin (5 / 100))) as [t Ht].
  exists t.
  apply (failed_fit_is_skipped L Examples.defaults st [] 1 0 (Fin (5 / 100)) [] t tt tt).
  - lia.
  - exact Ht.
  - intros e H. cbn in H. congruence.
  - intros e H. cbn in H. congruence.
Defined.

(** C6.  Every iteration of the loop constructs its screen stack exactly
    once, from the same layers and from a deviate freshly seeded with
    [seed + 1], whatever the state of the stream the wind loop has drawn
    from; a sweep that ends without an error has made one such call per
    cutoff value, four over the grid of a run. *)
Theorem screens_share_secondary_seed (L : Lib) (args : Args.t) (st : Layers.state L)
    (alts : list R) (r0_ : R) (icol : nat) (ks : list xreal) :
  Sweep.screens L args st alts
  = Sweep.CallAtmosphere L (Layers.r0_500 L st) (Args.L0 args) (Layers.spd L st)
      (Layers.dirn L st) alts (BaseDeviate L (Args.seed args + 1))
      (Args.screen_size args) (Args.screen_scale args) /\
  (forall kcrit,
     filter (Sweep.is_atmosphere L) (fst (Sweep.iteration L args st alts r0_ icol kcrit))
     = [Sweep.screens L args st alts]) /\
  (exists k, (k <= length ks)%nat /\
     filter (Sweep.is_atmosphere L) (fst (Sweep.sweep L args st alts r0_ icol ks))
     = repeat (Sweep.screens L args st alts) k /\
     (snd (Sweep.sweep L args st alts r0_ icol ks) = Ok tt -> k = length ks)) /\
  (forall kmin kmax,
     snd (Sweep.sweep L args st alts r0_ 0 (Sweep.kcrits kmin kmax)) = Ok tt ->
     filter (Sweep.is_atmosphere L)
       (fst (Sweep.sweep L args st alts r0_ 0 (Sweep.kcrits kmin kmax)))
     = repeat (Sweep.screens L args st alts) 4).
Proof.
  split; [reflexivity|]. split; [|split].
  - intros kcrit. apply iteration_atmosphere.
  - apply sweep_atmosphere.
  - intros kmin kmax Hok.
    destruct (sweep_atmosphere L args st alts r0_ 0 (Sweep.kcrits kmin kmax))
      as (k & _ & -> & Hk).
    rewrite (Hk Hok), kcrits_length. reflexivity.
Qed.

Lemma screens_share_secondary_seed_witness :
  let L := Examples.stub (Ok 1) in
  let st := Examples.no_layers (Ok 1) in
  filter (Sweep.is_atmosphere L)
    (fst (Sweep.sweep L Examples.defaults st [] 1 0 (Sweep.kcrits (5 / 100) (5 / 10))))
  = repeat (Sweep.screens L Examples.defaults st []) 4.
Proof.
  intros L st.
  destruct (screens_share_secondary_seed L Examples.defaults st [] 1 0 [])
    as (_ & _ & _ & Hrun).
  apply Hrun. apply sweep_defaults. discriminate.
Defined.

(** C9.  In every iteration the two images are requested with the same
    size, [nx] by [nx] pixels, and the same pixel scale; the first with the
    default drawing method, the second by photon shooting with [nphot]
    photons.  No other image is drawn, and a sweep that ends without an
    error has drawn exactly this pair for each cutoff value. *)
Theorem images_share_geometry (L : Lib) (args : Args.t) (st : Layers.state L)
    (alts : list R) (r0_ : R) (icol : nat) (ks : list xreal) :
  Sweep.fft_draw args = (Args.nx args, Args.nx args, Args.scale args, default_method) /\
  Sweep.phot_draw args
  = (Args.nx args, Args.nx args, Args.scale args, phot (Args.nphot args)) /\
  (forall kcrit,
     snd (Sweep.iteration L args st alts r0_ icol kcrit) = Ok tt ->
     Sweep.draws L (fst (Sweep.iteration L args st alts r0_ icol kcrit))
     = [Sweep.fft_draw args; Sweep.phot_draw args]) /\
  Forall (fun d => d = Sweep.fft_draw args \/ d = Sweep.phot_draw args)
    (Sweep.draws L (fst (Sweep.sweep L args st alts r0_ icol ks))) /\
  (snd (Sweep.sweep L args st alts r0_ icol ks) = Ok tt ->
   Sweep.draws L (fst (Sweep.sweep L args st alts r0_ icol ks))
   = concat (repeat [Sweep.fft_draw args; Sweep.phot_draw args] (length ks))).
Proof.
  split; [reflexivity|]. split; [reflexivity|]. split; [|apply sweep_draws].
  intros kcrit. apply iteration_draws.
Qed.

Lemma images_share_geometry_witness :
  let L := Examples.stub (Ok 1) in
  let st := Examples.no_layers (Ok 1) in
  let ks := Sweep.kcrits (5 / 100) (5 / 10) in
  Sweep.draws L (fst (Sweep.sweep L Examples.defaults st [] 1 0 ks))
  = concat (repeat [Sweep.fft_draw Examples.defaults; Sweep.phot_draw Examples.defaults]
              (length ks)).
Proof.
  intros L st ks.
  destruct (images_share_geometry L Examples.defaults st [] 1 0 ks)
    as (_ & _ & _ & _ & Hrun).
  apply Hrun. apply sweep_defaults. discriminate.
Defined.

(** ** C10: the output directory *)

Local Open Scope string_scope.

Example split_default : OS.split "output/secondKick.png" = ("output", "secondKick.png").
Proof. reflexivity. Qed.

Example split_bare : OS.split "secondKick.png" = ("", "secondKick.png").
Proof. reflexivity. Qed.

Example split_nested : OS.split "a/b/c.png" = ("a/b", "c.png").
Proof. reflexivity. Qed.

Example split_root : OS.split "/c.png" = ("/", "c.png").
Proof. reflexivity. Qed.

Example split_doubled : OS.split "a//c.png" = ("a", "c.png").
Proof. reflexivity. Qed.

Example split_trailing : OS.split "a/b/" = ("a/b", "").
Proof. reflexivity. Qed.

Lemma cut_no_sep (p : string) : OS.has_sep p = false -> OS.cut p = ("", p).
Proof.
  induction p as [|c r IH]; [reflexivity|].
  cbn [OS.has_sep OS.cut]. intros H. apply orb_false_iff in H as [Hc Hr].
  rewrite (IH Hr), Hc. reflexivity.
Qed.

Lemma split_no_sep (p : string) : OS.has_sep p = false -> OS.split p = ("", p).
Proof. intros H. unfold OS.split. now rewrite (cut_no_sep p H). Qed.

Lemma eqb_neq_empty (d : string) : d <> "" -> (d =? "") = false.
Proof. intros H. now apply String.eqb_neq. Qed.

Section Save.
Variable L : Lib.
Variable fs : OS.FS.
Variable outfile : string.

Lemma save_bare_filename :
  OS.has_sep outfile = false ->
  Sweep.save L fs outfile = ([Sweep.Mkdir L ""], fs, Raise FileNotFoundError).
Proof. intros H. unfold Sweep.save. rewrite (split_no_sep outfile H). reflexivity. Qed.

Lemma save_missing_parent (d : string) :
  d = fst (OS.split outfile) -> d <> "" ->
  OS.path_exists fs d = false ->
  fst (OS.split d) <> "" -> OS.path_exists fs (fst (OS.split d)) = false ->
  Sweep.save L fs outfile = ([Sweep.Mkdir L d], fs, Raise FileNotFoundError).
Proof.
  intros Hd Hne Hex Hpne Hpex. unfold Sweep.save.
  destruct (OS.split outfile) as [d' f]. cbn [fst] in Hd. subst d'.
  rewrite Hex. unfold OS.mkdir.
  rewrite (eqb_neq_empty d Hne), Hex, (eqb_neq_empty _ Hpne), Hpex. reflexivity.
Qed.

Lemma save_creates_one_level (d : string) :
  d = fst (OS.split outfile) -> d <> "" ->
  OS.path_exists fs d = false ->
  fst (OS.split d) = "" \/ OS.path_exists fs (fst (OS.split d)) = true ->
  Sweep.save L fs outfile
  = ([Sweep.Mkdir L d; Sweep.Savefig L outfile], outfile :: d :: fs, Ok tt).
Proof.
  intros Hd Hne Hex Hparent. unfold Sweep.save.
  destruct (OS.split outfile) as [d' f]. cbn [fst] in Hd. subst d'.
  rewrite Hex. unfold OS.mkdir. rewrite (eqb_neq_empty d Hne), Hex.
  destruct Hparent as [-> | ->]; [|rewrite orb_true_r]; reflexivity.
Qed.

Lemma save_existing_directory :
  OS.path_exists fs (fst (OS.split outfile)) = true ->
  Sweep.save L fs outfile = ([Sweep.Savefig L outfile], outfile :: fs, Ok tt).
Proof.
  intros Hex. unfold Sweep.save.
  destruct (OS.split outfile) as [d f]. cbn [fst] in Hex. now rewrite Hex.
Qed.

End Save.

(** C10.  The directory is created one level deep and only when
    [os.path.exists] denies it.  An output path without a separator has the
    empty directory part, and [os.mkdir] of it raises; a directory part whose
    own parent is missing makes [os.mkdir] raise as well; in both cases
    nothing is saved and the error ends the run, after everything the
    composition of the figure did.  A missing directory whose parent exists
    is created and the figure saved into it. *)
Theorem output_directory_single_level (L : Lib) (args : Args.t) (fs : OS.FS) :
  let outfile := Args.outfile args in
  let d := fst (OS.split outfile) in
  (OS.has_sep outfile = false ->
     d = "" /\
     Sweep.save L fs outfile = ([Sweep.Mkdir L ""], fs, Raise FileNotFoundError)) /\
  (d <> "" -> OS.path_exists fs d = false ->
     fst (OS.split d) <> "" -> OS.path_exists fs (fst (OS.split d)) = false ->
     Sweep.save L fs outfile = ([Sweep.Mkdir L d], fs, Raise FileNotFoundError)) /\
  (d <> "" -> OS.path_exists fs d = false ->
     fst (OS.split d) = "" \/ OS.path_exists fs (fst (OS.split d)) = true ->
     Sweep.save L fs outfile
     = ([Sweep.Mkdir L d; Sweep.Savefig L outfile], outfile :: d :: fs, Ok tt)) /\
  (forall t t' e,
     Sweep.compose L args = (t, Ok tt) ->
     Sweep.save L fs outfile = (t', fs, Raise e) ->
     Sweep.make_plot L args fs = ((t ++ t')%list, fs, Raise e)).
Proof.
  intros outfile d. split; [|split; [|split]].
  - intros H. split.
    + unfold d. now rewrite (split_no_sep outfile H).
    + now apply save_bare_filename.
  - intros. now apply save_missing_parent.
  - intros. now apply save_creates_one_level.
  - intros t t' e Hc Hs. unfold Sweep.make_plot. rewrite Hc. fold outfile. now rewrite Hs.
Qed.

Lemma output_directory_single_level_witness :
  let L := Examples.stub (Ok 1%R) in
  Sweep.save L [] "secondKick.png" = ([Sweep.Mkdir L ""], [], Raise FileNotFoundError) /\
  Sweep.save L [] "plots/run1/secondKick.png"
  = ([Sweep.Mkdir L "plots/run1"], [], Raise FileNotFoundError) /\
  Sweep.save L [] "output/secondKick.png"
  = ([Sweep.Mkdir L "output"; Sweep.Savefig L "output/secondKick.png"],
     ["output/secondKick.png"; "output"], Ok tt) /\
  (exists t, Sweep.make_plot L (Examples.defaults_to "secondKick.png") []
             = ((t ++ [Sweep.Mkdir L ""])%list, [], Raise FileNotFoundError)).
Proof.
  intros L. split; [|split; [|split]]; [| | |
    destruct (compose_defaults (Ok 1%R) "secondKick.png") as [t Ht]; [discriminate|];
    exists t;
    destruct (output_directory_single_level L (Examples.defaults_to "secondKick.png") [])
      as (_ & _ & _ & Hrun);
    apply Hrun; [exact Ht | reflexivity] ].
  - destruct (output_directory_single_level L (Examples.defaults_to "secondKick.png") [])
      as (Hbare & _).
    apply Hbare. reflexivity.
  - destruct (output_directory_single_level L
                (Examples.defaults_to "plots/run1/secondKick.png") [])
      as (_ & Hmissing & _).
    apply Hmissing; [discriminate | reflexivity | discriminate | reflexivity].
  - destruct (output_directory_single_level L Examples.defaults [])
      as (_ & _ & Hcreate & _).
    apply Hcreate; [discriminate | reflexivity | now left].
Defined.

Example save_default_path :
  Sweep.save (Examples.stub (Ok 1%R)) [] "output/secondKick.png"
  = ([Sweep.Mkdir _ "output"; Sweep.Savefig _ "output/secondKick.png"],
     ["output/secondKick.png"; "output"], Ok tt).
Proof. reflexivity. Qed.

Example save_bare_path :
  Sweep.save (Examples.stub (Ok 1%R)) [] "secondKick.png"
  = ([Sweep.Mkdir _ ""], [], Raise FileNotFoundError).
Proof. reflexivity. Qed.

Example save_nested_path :
  Sweep.save (Examples.stub (Ok 1%R)) [] "plots/run1/secondKick.png"
  = ([Sweep.Mkdir _ "plots/run1"], [], Raise FileNotFoundError).
Proof. reflexivity. Qed.

(** * Further properties of the run *)

Local Open Scope R_scope.
Local Open Scope list_scope.

(** ** More on the layer profile *)

Lemma py_sum_mult (l : list R) (c : R) : py_sum (map (fun x => c * x) l) = c * py_sum l.
Proof.
  induction l as [|x l IH].
  - unfold py_sum; cbn. lra.
  - cbn [map]. rewrite !py_sum_cons, IH. lra.
Qed.

Lemma Rpower_neg_ge_1 (w e : R) : 0 < w -> w <= 1 -> e < 0 -> 1 <= Rpower w e.
Proof.
  intros Hw Hw1 He. unfold Rpower. rewrite <- exp_0.
  assert (Hln : ln w <= 0).
  { destruct (Rle_lt_or_eq_dec _ _ Hw1) as [Hlt | ->]; [|rewrite ln_1; lra].
    rewrite <- ln_1. left. now apply ln_increasing. }
  destruct (Req_dec (e * ln w) 0) as [-> | Hne]; [lra|].
  left. apply exp_increasing. nra.
Qed.

Lemma linear_interp_le (tab : list (R * R)) (x M : R) (w : R) :
  table_ok tab -> Forall (fun p => snd p <= M) tab ->
  linear_interp tab x = Some w -> w <= M.
Proof.
  induction tab as [|[x0 f0] rest IH]; [discriminate|].
  destruct rest as [|[x1 f1] rest']; [discriminate|].
  intros (Hf0 & Hx01 & Hok) Hall. cbn [linear_interp].
  destruct (Rltb x x0) eqn:E0; [discriminate|]. apply Rltb_false in E0.
  destruct (Rltb x1 x) eqn:E1.
  - apply IH; auto. now inversion Hall.
  - apply Rltb_false in E1. intros [= <-].
    inversion Hall as [|? ? H0 Hall']; subst. inversion Hall' as [|? ? H1 _]; subst.
    cbn [snd] in H0, H1.
    set (t := (x - x0) / (x1 - x0)).
    assert (Ht : 0 <= t <= 1).
    { unfold t; split.
      - apply Rmult_le_pos; [lra | left; apply Rinv_0_lt_compat; lra].
      - apply (Rmult_le_reg_r (x1 - x0)); [lra|].
        unfold Rdiv. rewrite Rmult_assoc, Rinv_l by lra. lra. }
    replace (f0 + (x - x0) * (f1 - f0) / (x1 - x0)) with (f0 * (1 - t) + f1 * t)
      by (unfold t; field; lra).
    nra.
Qed.

Lemma Ellerbroek_weights_le : Forall (fun p : R * R => snd p <= 652 / 1000) Ellerbroek_table.
Proof.
  unfold Ellerbroek_table, Ellerbroek_alts, Ellerbroek_weights, dec; cbn.
  repeat constructor; cbn; lra.
Qed.

Lemma Ellerbroek_interp_ground : linear_interp Ellerbroek_table 0 = Some (652 / 1000).
Proof.
  unfold Ellerbroek_table, Ellerbroek_alts, Ellerbroek_weights, dec; cbn.
  rewrite (proj2 (Rltb_false 0 (0 / 1))) by lra.
  rewrite (proj2 (Rltb_false (258 / 100) 0)) by lra.
  f_equal. field.
Qed.

Lemma Forall2_nth_lt {A B : Type} (P : A -> B -> Prop) (l : list A) (l' : list B)
    (i : nat) (d : A) (d' : B) :
  Forall2 P l l' -> (i < length l)%nat -> P (nth i l d) (nth i l' d').
Proof.
  intros HF. revert i. induction HF as [|x y l l' Hxy HF IH]; intros [|i] Hi; cbn in *;
    try lia; auto. apply IH. lia.
Qed.

Lemma Rpower_neg_antitone (x y e : R) : 0 < x -> x <= y -> e < 0 -> Rpower y e <= Rpower x e.
Proof.
  intros Hx Hxy He. destruct (Rle_lt_or_eq_dec _ _ Hxy) as [Hlt | ->]; [|lra].
  left. now apply Rpower_neg_decreasing.
Qed.

(** The profile of [n >= 2] layers once more, with the bounds on its
    weights: each lies in (0, 1] and none exceeds the weight of the ground
    layer, which sits at altitude 0. *)
Lemma layer_profile_bounds (n : Z) :
  (2 <= n)%Z ->
  exists a ws,
    layer_profile n = Ok (a, ws) /\
    length a = Z.to_nat n /\ length ws = Z.to_nat n /\
    nth 0 a 0 = 0 /\
    py_sum ws = 1 /\
    Forall (fun w => 0 < w <= 1) ws /\
    (forall i, (i < length ws)%nat -> nth i ws 0 <= nth 0 ws 0).
Proof.
  intros Hn.
  destruct (layer_profile_exact n Hn) as (a & raw & Ha & Hlen & HF & Hpos & Hsum & Hp).
  rewrite alts_exact in Ha. injection Ha as <-.
  assert (Hraw : length raw = Z.to_nat n) by now rewrite <- (Forall2_length HF).
  set (ws := map (fun w => w / py_sum raw) raw) in *.
  assert (Hws : Forall (fun w => 0 < w) ws).
  { apply Forall_map. eapply Forall_impl; [|exact Hpos].
    intros w Hw. cbn. now apply Rdiv_lt_0_compat. }
  assert (Hone : py_sum ws = 1) by (unfold ws; rewrite py_sum_scaled; field; lra).
  exists (exact_grid n), ws. repeat split; auto.
  - unfold ws. now rewrite length_map.
  - rewrite <- hd_as_nth. now apply grid_first.
  - rewrite Forall_forall in *. intros w Hw. split; [now apply Hws|].
    rewrite <- Hone. apply py_sum_bounds_member; [now apply Forall_forall | exact Hw].
  - intros i Hi. unfold ws in Hi |- *. rewrite length_map in Hi.
    rewrite !(nth_map_lt (fun w => w / py_sum raw) raw _ 0 0) by lia.
    assert (H0 : linear_interp Ellerbroek_table (nth 0 (exact_grid n) 0) = Some (nth 0 raw 0)).
    { apply (Forall2_nth_lt _ _ _ 0 0 0 HF). lia. }
    rewrite <- hd_as_nth, grid_first, Ellerbroek_interp_ground in H0 by assumption.
    injection H0 as H0.
    assert (Hi' : linear_interp Ellerbroek_table (nth i (exact_grid n) 0) = Some (nth i raw 0)).
    { apply (Forall2_nth_lt _ _ _ i 0 0 HF). lia. }
    apply linear_interp_le with (M := 652 / 1000) in Hi';
      [|apply Ellerbroek_table_ok | apply Ellerbroek_weights_le].
    rewrite <- H0.
    apply Rmult_le_compat_r; [left; now apply Rinv_0_lt_compat | exact Hi'].
Qed.

(** X1.  The Fried parameters of the layers recombine to the net one: the
    sum of [r0_i^(-5/3)] over the layers is [r0_500^(-5/3)] times the fudge
    factor, for positive [r0_500] and [turb_factor] and at least two
    layers. *)
Theorem fried_parameters_recombine (L : Lib) (args : Args.t) :
  (2 <= Args.nlayers args)%Z ->
  0 < Args.turb_factor args ->
  0 < Args.r0_500 args ->
  exists a ws st,
    layer_profile (Args.nlayers args) = Ok (a, ws) /\
    Layers.layers L args ws = Ok st /\
    py_sum (map (fun r => Rpower r (-5 / 3)) (Layers.r0_500 L st))
    = Rpower (Args.r0_500 args) (-5 / 3) * Args.turb_factor args.
Proof.
  intros Hn Htf Hnet.
  destruct (layer_profile_bounds _ Hn) as (a & ws & Hp & _ & Hlen & _ & Hone & Hws & _).
  assert (Hpos : Forall (fun w => 0 < w) ws).
  { eapply Forall_impl; [|exact Hws]. cbn. tauto. }
  eexists a, ws, _. split; [exact Hp|]. split; [now apply layers_run|].
  cbn [Layers.r0_500]. rewrite map_map.
  set (c := Rpower (Args.r0_500 args) (-5 / 3) * Args.turb_factor args).
  rewrite (map_ext_in _ (fun w => c * w)).
  - rewrite py_sum_mult, Hone. lra.
  - intros w Hw. rewrite Forall_forall in Hpos. specialize (Hpos w Hw).
    rewrite <- !Rpower_mult_distr;
      try apply Rpower_pos; try (apply Rmult_lt_0_compat; [assumption | apply Rpower_pos]);
      try assumption.
    rewrite !Rpower_mult.
    replace (-3 / 5 * (-5 / 3)) with 1 by field.
    rewrite !Rpower_1 by assumption. unfold c. ring.
Qed.

Lemma fried_parameters_recombine_witness :
  let L := Examples.stub (Ok 1) in
  let args := Examples.defaults in
  exists a ws st,
    layer_profile (Args.nlayers args) = Ok (a, ws) /\
    Layers.layers L args ws = Ok st /\
    py_sum (map (fun r => Rpower r (-5 / 3)) (Layers.r0_500 L st))
    = Rpower (Args.r0_500 args) (-5 / 3) * Args.turb_factor args.
Proof.
  apply (fried_parameters_recombine (Examples.stub (Ok 1)) Examples.defaults);
    cbn; first [lia | lra].
Defined.

(** X2.  Whatever positive values the table returns at the altitudes, one
    per layer, every renormalised weight lies in (0, 1], and so no layer has
    a Fried parameter below the net one scaled by the fudge factor:
    [r0_500 * turb_factor^(-3/5) <= r0_i]. *)
Theorem layers_no_stronger_than_net (L : Lib) (args : Args.t)
    (table : Builder.LookupTable) (a : list PrimFloat.float) (raw : list R) :
  (1 <= Args.nlayers args)%Z ->
  alts (Args.nlayers args) = Ok a ->
  table Ellerbroek_alts Ellerbroek_weights "linear"%string a = Ok (map Fin raw) ->
  length raw = length a ->
  Forall (fun w => 0 < w) raw ->
  0 < Args.turb_factor args ->
  0 < Args.r0_500 args ->
  exists ws st,
    Builder.layer_profile table (Args.nlayers args) = Ok (a, map Fin ws) /\
    Layers.layers L args ws = Ok st /\
    Forall (fun w => 0 < w <= 1) ws /\
    Forall (fun r => Args.r0_500 args * Rpower (Args.turb_factor args) (-3 / 5) <= r)
      (Layers.r0_500 L st).
Proof.
  intros Hn Ha Ht Hlen Hraw Htf Hnet.
  pose proof (alts_b64_length _ a Ha) as Hla.
  assert (Hne : raw <> []).
  { intros ->. cbn [length] in Hlen. lia. }
  pose proof (py_sum_pos raw Hne Hraw) as Hs.
  pose proof (renormalised_bounds raw Hne Hraw) as Hws.
  set (ws := map (fun w => w / py_sum raw) raw) in *.
  assert (Hwl : length ws = Z.to_nat (Args.nlayers args)).
  { unfold ws. now rewrite length_map, Hlen. }
  assert (Hpos : Forall (fun w => 0 < w) ws).
  { eapply Forall_impl; [|exact Hws]. cbn. tauto. }
  eexists ws, _. split; [apply builder_run; auto; lra|].
  split; [now apply layers_run|].
  split; [exact Hws|]. cbn [Layers.r0_500].
  apply Forall_map. eapply Forall_impl; [|exact Hws]. intros w [Hw0 Hw1]. cbn beta.
  pose proof (Rpower_neg_ge_1 w (-3 / 5) Hw0 Hw1 ltac:(lra)) as Hge.
  pose proof (Rpower_pos (Args.turb_factor args) (-3 / 5)) as Hf.
  set (P := Rpower w (-3 / 5)) in *. set (F := Rpower (Args.turb_factor args) (-3 / 5)) in *.
  assert (Hnf : 0 < Args.r0_500 args * F) by now apply Rmult_lt_0_compat.
  replace (Args.r0_500 args * P * F) with (Args.r0_500 args * F * P) by ring.
  rewrite <- (Rmult_1_r (Args.r0_500 args * F)) at 1.
  apply Rmult_le_compat_l; lra.
Qed.

Lemma layers_no_stronger_than_net_witness :
  let L := Examples.stub (Ok 1) in
  let args := Examples.defaults in
  exists ws st,
    Builder.layer_profile (Examples.flat_table (22 / 1000)) (Args.nlayers args)
    = Ok (Examples.six_altitudes, map Fin ws) /\
    Layers.layers L args ws = Ok st /\
    Forall (fun w => 0 < w <= 1) ws /\
    Forall (fun r => Args.r0_500 args * Rpower (Args.turb_factor args) (-3 / 5) <= r)
      (Layers.r0_500 L st).
Proof.
  apply (layers_no_stronger_than_net (Examples.stub (Ok 1)) Examples.defaults
           (Examples.flat_table (22 / 1000)) Examples.six_altitudes (repeat (22 / 1000) 6)).
  - cbn. lia.
  - reflexivity.
  - reflexivity.
  - reflexivity.
  - repeat constructor; lra.
  - cbn. lra.
  - cbn. lra.
Defined.

(** X4.  With at least two layers and a positive fudge factor the four
    per-layer lists that go to the screen constructor, altitudes, speeds,
    directions and Fried parameters, all have [nlayers] entries. *)
Theorem per_layer_lists_agree (L : Lib) (args : Args.t) :
  (2 <= Args.nlayers args)%Z ->
  0 < Args.turb_factor args ->
  exists a ws st,
    layer_profile (Args.nlayers args) = Ok (a, ws) /\
    Layers.layers L args ws = Ok st /\
    length a = Z.to_nat (Args.nlayers args) /\
    length (Layers.spd L st) = Z.to_nat (Args.nlayers args) /\
    length (Layers.dirn L st) = Z.to_nat (Args.nlayers args) /\
    length (Layers.r0_500 L st) = Z.to_nat (Args.nlayers args).
Proof.
  intros Hn Htf.
  destruct (layer_profile_bounds _ Hn) as (a & ws & Hp & Hla & Hlen & _ & _ & Hws & _).
  assert (Hpos : Forall (fun w => 0 < w) ws).
  { eapply Forall_impl; [|exact Hws]. cbn. tauto. }
  eexists a, ws, _. split; [exact Hp|]. split; [now apply layers_run|].
  cbn [Layers.spd Layers.dirn Layers.r0_500].
  rewrite !length_map, length_seq. auto.
Qed.

Lemma per_layer_lists_agree_witness :
  let L := Examples.stub (Ok 1) in
  let args := Examples.defaults in
  exists a ws st,
    layer_profile (Args.nlayers args) = Ok (a, ws) /\
    Layers.layers L args ws = Ok st /\
    length a = Z.to_nat (Args.nlayers args) /\
    length (Layers.spd L st) = Z.to_nat (Args.nlayers args) /\
    length (Layers.dirn L st) = Z.to_nat (Args.nlayers args) /\
    length (Layers.r0_500 L st) = Z.to_nat (Args.nlayers args).
Proof.
  apply (per_layer_lists_agree (Examples.stub (Ok 1)) Examples.defaults);
    cbn; first [lia | lra].
Defined.

(** X5.  A fudge factor of zero.  With at least one layer, and whatever
    positive weights the builder returned, one per layer, the wind loop runs
    through and line 96 then raises [ZeroDivisionError], from
    [0.0 ** (-3./5)].  With no layer the comprehension of line 96 is empty:
    the power is not evaluated and the stage ends with empty lists. *)
Theorem zero_fudge_factor_raises (L : Lib) (args : Args.t) (ws : list R) :
  Args.turb_factor args = 0 ->
  ((1 <= Args.nlayers args)%Z ->
   length ws = Z.to_nat (Args.nlayers args) -> Forall (fun w => 0 < w) ws ->
   (exists st, Layers.loop L args ws = Ok st) /\
   Layers.layers L args ws = Raise ZeroDivisionError) /\
  ((Args.nlayers args <= 0)%Z ->
   exists st, Layers.layers L args ws = Ok st /\
     Layers.spd L st = [] /\ Layers.dirn L st = [] /\ Layers.r0_500 L st = []).
Proof.
  intros Htf. split.
  - intros Hn Hlen Hpos. split; [eexists; now apply loop_run|].
    unfold Layers.layers. rewrite (loop_run L args ws Hlen Hpos). cbn [bind Layers.r0_500].
    destruct ws as [|w ws]; [cbn [length] in Hlen; lia|].
    unfold Layers.apply_fudge. cbn [map mapM]. rewrite Htf. unfold py_pow.
    destruct (Rlt_dec 0 0) as [E|_]; [lra|].
    destruct (Rlt_dec (-3 / 5) 0) as [_|E]; [reflexivity | lra].
  - intros Hn. unfold Layers.layers, Layers.loop.
    replace (Z.to_nat (Args.nlayers args)) with 0%nat by lia.
    cbn. eexists. repeat split.
Qed.

Lemma zero_fudge_factor_raises_witness :
  let L := Examples.stub (Ok 1) in
  let args := Examples.custom 2 0 (25 / 1000) in
  let ws := [1 / 2; 1 / 2] in
  ((1 <= Args.nlayers args)%Z ->
   length ws = Z.to_nat (Args.nlayers args) -> Forall (fun w => 0 < w) ws ->
   (exists st, Layers.loop L args ws = Ok st) /\
   Layers.layers L args ws = Raise ZeroDivisionError) /\
  ((Args.nlayers args <= 0)%Z ->
   exists st, Layers.layers L args ws = Ok st /\
     Layers.spd L st = [] /\ Layers.dirn L st = [] /\ Layers.r0_500 L st = []).
Proof.
  apply (zero_fudge_factor_raises (Examples.stub (Ok 1)) (Examples.custom 2 0 (25 / 1000))
           [1 / 2; 1 / 2]).
  reflexivity.
Defined.

(** ** More on steps and their traces *)

Section MoreTraces.
Variable L : Lib.

Lemma shown_app (t t' : list (Sweep.event L)) :
  Sweep.shown L (t ++ t') = Sweep.shown L t ++ Sweep.shown L t'.
Proof.
  induction t as [|e t IH]; [reflexivity|].
  destruct e; cbn; rewrite ?IH; reflexivity.
Qed.

Lemma kmins_app (t t' : list (Sweep.event L)) :
  Sweep.kmins L (t ++ t') = Sweep.kmins L t ++ Sweep.kmins L t'.
Proof.
  induction t as [|e t IH]; [reflexivity|].
  destruct e; cbn; rewrite ?IH; reflexivity.
Qed.

Lemma kicks_app (t t' : list (Sweep.event L)) :
  Sweep.kicks L (t ++ t') = Sweep.kicks L t ++ Sweep.kicks L t'.
Proof.
  induction t as [|e t IH]; [reflexivity|].
  destruct e; cbn; rewrite ?IH; reflexivity.
Qed.

Variable args : Args.t.
Variable st : Layers.state L.
Variable alts : list R.
Variable r0_ : R.

Ltac run_step :=
  match goal with
  | |- context [match ?r with Ok _ => _ | Raise _ => _ end] =>
      destruct r eqn:?; cbn [fst snd app]
  | |- context [let (_, _) := ?p in _] => destruct p eqn:?; cbn [fst snd app]
  | |- context [if ?b then _ else _] => destruct b eqn:?; cbn [fst snd app]
  end.

Ltac run_all :=
  rewrite ?mbind_events, ?mbind_outcome;
  cbn [Sweep.call Sweep.lift Sweep.ret fst snd app];
  repeat (run_step; rewrite ?mbind_events, ?mbind_outcome;
          cbn [Sweep.call Sweep.lift Sweep.ret fst snd app]).

(** What a rendering leaves in the trace besides its images. *)
Lemma render_reads (kcrit : xreal) :
  let t := fst (Sweep.render L args st alts r0_ kcrit) in
  Sweep.shown L t = [] /\
  (forall imgs, snd (Sweep.render L args st alts r0_ kcrit) = Ok imgs ->
     Sweep.kmins L t = [div_fin kcrit r0_] /\
     exists r, Sweep.r0 args = Ok r /\ Sweep.kicks L t = [(r, kcrit)]).
Proof.
  cbn zeta. unfold Sweep.render. run_all.
  all: cbn; repeat split; auto; try discriminate; eauto.
Qed.

Lemma render_zero_step (kcrit : xreal) :
  Args.time_step args = 0 ->
  Sweep.draws L (fst (Sweep.render L args st alts r0_ kcrit)) = [] /\
  Sweep.titles L (fst (Sweep.render L args st alts r0_ kcrit)) = [] /\
  exists e, snd (Sweep.render L args st alts r0_ kcrit) = Raise e /\
    (Sweep.never_aborts L -> e = ZeroDivisionError).
Proof.
  intros Hts. unfold Sweep.render, py_truediv. rewrite Hts.
  destruct (Req_dec_T 0 0) as [_|Hne]; [|contradiction].
  run_all.
  all: cbn; repeat split; auto; eexists; split; [reflexivity|].
  all: intros (Hatm & Hinst & Haper & _); try reflexivity; exfalso.
  all: repeat match goal with
         | H : Atmosphere _ _ _ _ _ _ _ _ _ = Raise _ |- _ =>
             let a := fresh in
             destruct (Hatm (Layers.r0_500 L st) (Args.L0 args) (Layers.spd L st)
                         (Layers.dirn L st) alts (BaseDeviate L (Args.seed args + 1))
                         (Args.screen_size args) (Args.screen_scale args)) as [a Ha];
             congruence
         | H : instantiate _ ?x ?k = Raise _ |- _ =>
             destruct (Hinst x k) as [? ?]; congruence
         | H : Aperture _ ?d ?l ?o ?x ?p ?s = Raise _ |- _ =>
             destruct (Haper d l o x p s) as [? ?]; congruence
         end.
Qed.

Lemma collect_reads (icol : nat) (kcrit : xreal) (fftImg skImg : Image L) :
  let t := fst (Sweep.collect L icol kcrit fftImg skImg) in
  Sweep.kmins L t = [] /\ Sweep.kicks L t = [] /\
  (snd (Sweep.collect L icol kcrit fftImg skImg) = Ok tt ->
   Sweep.shown L t = [(0, icol); (1, icol)]%nat).
Proof.
  cbn zeta.
  unfold Sweep.collect, Sweep.annotate, Sweep.axes, Sweep.try_except_RuntimeError.
  cbn [Sweep.call].
  destruct (FindAdaptiveMom L fftImg) as [s1|[]];
    destruct (FindAdaptiveMom L skImg) as [s2|[]];
    destruct (icol <? 4)%nat; cbn; repeat split; auto; discriminate.
Qed.

(** The first fit raising anything but [RuntimeError] ends [collect] at
    once; so does the second, after the first. *)
Lemma collect_aborts (icol : nat) (kcrit : xreal) (fftImg skImg : Image L) (e : exn) :
  e <> RuntimeError ->
  (FindAdaptiveMom L fftImg = Raise e ->
   Sweep.collect L icol kcrit fftImg skImg
   = ([Sweep.CallFindAdaptiveMom L fftImg], Raise e)) /\
  ((forall e', FindAdaptiveMom L fftImg = Raise e' -> e' = RuntimeError) ->
   FindAdaptiveMom L skImg = Raise e ->
   Sweep.collect L icol kcrit fftImg skImg
   = ([Sweep.CallFindAdaptiveMom L fftImg; Sweep.CallFindAdaptiveMom L skImg], Raise e)).
Proof.
  intros Hne. unfold Sweep.collect. split.
  - intros ->. destruct e; try contradiction; reflexivity.
  - intros H1 ->.
    destruct (FindAdaptiveMom L fftImg) as [s|e1]; [|rewrite (H1 e1 eq_refl)];
      destruct e; try contradiction; reflexivity.
Qed.

Lemma iteration_reads (icol : nat) (kcrit : xreal) :
  let t := fst (Sweep.iteration L args st alts r0_ icol kcrit) in
  snd (Sweep.iteration L args st alts r0_ icol kcrit) = Ok tt ->
  Sweep.shown L t = [(0, icol); (1, icol)]%nat /\
  Sweep.kmins L t = [div_fin kcrit r0_] /\
  exists r, Sweep.r0 args = Ok r /\ Sweep.kicks L t = [(r, kcrit)].
Proof.
  cbn zeta. rewrite iteration_events, iteration_outcome.
  destruct (render_reads kcrit) as (Hs & Hok). cbn zeta in Hs, Hok.
  rewrite shown_app, kmins_app, kicks_app, Hs.
  destruct (snd (Sweep.render L args st alts r0_ kcrit)) as [imgs|e]; [|discriminate].
  destruct (collect_reads icol kcrit (fst imgs) (snd imgs)) as (Ckm & Cki & Cok).
  cbn zeta in *. rewrite Ckm, Cki, !app_nil_r.
  destruct (Hok imgs eq_refl) as (Hkm & r & Hr & Hki).
  intros Hc. split; [now apply Cok|]. split; [exact Hkm|]. eauto.
Qed.

Lemma sweep_shown (icol : nat) (ks : list xreal) :
  snd (Sweep.sweep L args st alts r0_ icol ks) = Ok tt ->
  Sweep.shown L (fst (Sweep.sweep L args st alts r0_ icol ks))
  = flat_map (fun c => [(0, c); (1, c)]%nat) (seq icol (length ks)).
Proof.
  revert icol; induction ks as [|kcrit ks IH]; intros icol; [reflexivity|].
  rewrite sweep_events, sweep_outcome, shown_app.
  pose proof (iteration_reads icol kcrit) as Hok. cbn zeta in Hok.
  destruct (snd (Sweep.iteration L args st alts r0_ icol kcrit)) as [[]|e]; [|discriminate].
  intros H. destruct (Hok eq_refl) as (-> & _). rewrite (IH _ H). reflexivity.
Qed.

Lemma sweep_scales (icol : nat) (ks : list xreal) :
  snd (Sweep.sweep L args st alts r0_ icol ks) = Ok tt ->
  Sweep.kmins L (fst (Sweep.sweep L args st alts r0_ icol ks))
  = map (fun k => div_fin k r0_) ks /\
  forall r, Sweep.r0 args = Ok r ->
    Sweep.kicks L (fst (Sweep.sweep L args st alts r0_ icol ks)) = map (fun k => (r, k)) ks.
Proof.
  revert icol; induction ks as [|kcrit ks IH]; intros icol; [cbn; auto|].
  rewrite sweep_events, sweep_outcome, kmins_app, kicks_app.
  pose proof (iteration_reads icol kcrit) as Hok. cbn zeta in Hok.
  destruct (snd (Sweep.iteration L args st alts r0_ icol kcrit)) as [[]|e]; [|discriminate].
  intros H. destruct (Hok eq_refl) as (_ & -> & r & Hr & ->).
  destruct (IH _ H) as [-> Hk]. split; [reflexivity|].
  intros r' Hr'. rewrite (Hk r' Hr'). cbn. congruence.
Qed.

Lemma sweep_zero_step (icol : nat) (kcrit : xreal) (ks : list xreal) :
  Sweep.never_aborts L -> Args.time_step args = 0 ->
  snd (Sweep.sweep L args st alts r0_ icol (kcrit :: ks)) = Raise ZeroDivisionError /\
  Sweep.draws L (fst (Sweep.sweep L args st alts r0_ icol (kcrit :: ks))) = [] /\
  Sweep.shown L (fst (Sweep.sweep L args st alts r0_ icol (kcrit :: ks))) = [] /\
  filter (Sweep.is_atmosphere L) (fst (Sweep.sweep L args st alts r0_ icol (kcrit :: ks)))
  = [Sweep.screens L args st alts].
Proof.
  intros Hlib Hts.
  rewrite sweep_events, sweep_outcome, filter_app, iteration_atmosphere.
  rewrite iteration_events, iteration_outcome.
  destruct (render_zero_step kcrit Hts) as (Hd & _ & e & He & Hz).
  destruct (render_reads kcrit) as (Hs & _).
  cbn zeta in Hs. rewrite He, (Hz Hlib), !app_nil_r. auto.
Qed.

End MoreTraces.

(** *** The output path *)

Lemma path_exists_cons (fs : OS.FS) (x d : string) :
  OS.path_exists fs d = true -> OS.path_exists (x :: fs) d = true.
Proof.
  unfold OS.path_exists. destruct (d =? "")%string; [discriminate|].
  destruct (d =? "/")%string; [reflexivity|].
  cbn [existsb]. intros ->. apply orb_true_r.
Qed.

Lemma path_exists_head (fs : OS.FS) (d : string) :
  d <> ""%string -> OS.path_exists (d :: fs) d = true.
Proof.
  intros Hd. unfold OS.path_exists. rewrite (eqb_neq_empty d Hd).
  destruct (d =? "/")%string; [reflexivity|].
  cbn [existsb]. now rewrite String.eqb_refl.
Qed.

Lemma mkdir_inv (fs fs' : OS.FS) (d : string) :
  OS.mkdir fs d = Ok fs' -> d <> ""%string /\ fs' = d :: fs.
Proof.
  unfold OS.mkdir. destruct (String.eqb_spec d "") as [->|Hd]; [discriminate|].
  destruct (OS.path_exists fs d); [discriminate|].
  destruct ((fst (OS.split d) =? "")%string || OS.path_exists fs (fst (OS.split d)));
    [|discriminate].
  intros [= <-]. now split.
Qed.

(** *** The second stand-in library *)

Lemma render_picky (e : exn) (st : Layers.state (Examples.picky e))
    (alts : list R) (r0_ : R) (kcrit : xreal) :
  exists t, Sweep.render (Examples.picky e) Examples.defaults st alts r0_ kcrit
            = (t, Ok (default_method, phot (Args.nphot Examples.defaults))).
Proof.
  unfold Sweep.render, py_truediv, Examples.defaults. rewrite r0_defaults. cbn.
  destruct (Req_dec_T (25 / 1000) 0) as [E|_]; [lra|].
  cbn. eexists. reflexivity.
Qed.

(** ** More on the sweep and the output stage *)

(** X6.  A time step of zero stops the sweep in its first pass, at the
    division of line 128.  Whatever the cutoff values, with a library that
    never aborts the sweep raises [ZeroDivisionError] after the screens of
    the first value have been built, once; no image has been drawn or
    shown. *)
Theorem zero_time_step_raises (L : Lib) (args : Args.t) (st : Layers.state L)
    (alts : list R) (r0_ : R) (icol : nat) (kcrit : xreal) (ks : list xreal) :
  Sweep.never_aborts L ->
  Args.time_step args = 0 ->
  snd (Sweep.sweep L args st alts r0_ icol (kcrit :: ks)) = Raise ZeroDivisionError /\
  Sweep.draws L (fst (Sweep.sweep L args st alts r0_ icol (kcrit :: ks))) = [] /\
  Sweep.shown L (fst (Sweep.sweep L args st alts r0_ icol (kcrit :: ks))) = [] /\
  filter (Sweep.is_atmosphere L) (fst (Sweep.sweep L args st alts r0_ icol (kcrit :: ks)))
  = [Sweep.screens L args st alts].
Proof. intros Hlib Hts. now apply sweep_zero_step. Qed.

Lemma zero_time_step_raises_witness :
  let L := Examples.stub (Ok 1) in
  let args := Examples.custom 6 1 0 in
  let st := Examples.no_layers (Ok 1) in
  let ks := [Fin (5 / 100); Fin (5 / 10)] in
  snd (Sweep.sweep L args st [] 1 0 ks) = Raise ZeroDivisionError /\
  Sweep.draws L (fst (Sweep.sweep L args st [] 1 0 ks)) = [] /\
  Sweep.shown L (fst (Sweep.sweep L args st [] 1 0 ks)) = [] /\
  filter (Sweep.is_atmosphere L) (fst (Sweep.sweep L args st [] 1 0 ks))
  = [Sweep.screens L args st []].
Proof.
  apply (zero_time_step_raises (Examples.stub (Ok 1)) (Examples.custom 6 1 0)
           (Examples.no_layers (Ok 1)) [] 1 0 (Fin (5 / 100)) [Fin (5 / 10)]).
  - apply stub_never_aborts. discriminate.
  - reflexivity.
Defined.

(** X7.  The [try] of line 139 catches [RuntimeError] only.  Any other
    exception of the first size fit ends the sweep there: the second fit is
    not called, nothing is shown, and the cutoff values left are not
    rendered. *)
Theorem first_fit_error_ends_sweep (L : Lib) (args : Args.t) (st : Layers.state L)
    (alts : list R) (r0_ : R) (icol : nat) (kcrit : xreal) (ks : list xreal)
    (t : list (Sweep.event L)) (fftImg secondKickImg : Image L) (e : exn) :
  Sweep.render L args st alts r0_ kcrit = (t, Ok (fftImg, secondKickImg)) ->
  FindAdaptiveMom L fftImg = Raise e ->
  e <> RuntimeError ->
  Sweep.sweep L args st alts r0_ icol (kcrit :: ks)
  = (t ++ [Sweep.CallFindAdaptiveMom L fftImg], Raise e).
Proof.
  intros Hrender Hfit Hne. cbn [Sweep.sweep]. unfold Sweep.iteration. rewrite Hrender.
  cbn [Sweep.mbind fst snd].
  rewrite (proj1 (collect_aborts L icol kcrit fftImg secondKickImg e Hne) Hfit).
  reflexivity.
Qed.

Lemma first_fit_error_ends_sweep_witness :
  let L := Examples.stub (Raise ValueError) in
  let st := Examples.no_layers (Raise ValueError) in
  exists t,
    Sweep.sweep L Examples.defaults st [] 1 0 [Fin (5 / 100); Fin (5 / 10)]
    = (t ++ [Sweep.CallFindAdaptiveMom L tt], Raise ValueError).
Proof.
  intros L st.
  destruct (render_defaults (Raise ValueError) st [] 1 (Fin (5 / 100))) as [t Ht].
  exists t.
  apply (first_fit_error_ends_sweep L Examples.defaults st [] 1 0 (Fin (5 / 100))
           [Fin (5 / 10)] t tt tt ValueError).
  - exact Ht.
  - reflexivity.
  - discriminate.
Defined.

(** X8.  The same for the [try] of line 144: when the first fit returned or
    failed with a [RuntimeError], any other exception of the second fit ends
    the sweep after the two calls, with nothing shown. *)
Theorem second_fit_error_ends_sweep (L : Lib) (args : Args.t) (st : Layers.state L)
    (alts : list R) (r0_ : R) (icol : nat) (kcrit : xreal) (ks : list xreal)
    (t : list (Sweep.event L)) (fftImg secondKickImg : Image L) (e : exn) :
  Sweep.render L args st alts r0_ kcrit = (t, Ok (fftImg, secondKickImg)) ->
  (forall e', FindAdaptiveMom L fftImg = Raise e' -> e' = RuntimeError) ->
  FindAdaptiveMom L secondKickImg = Raise e ->
  e <> RuntimeError ->
  Sweep.sweep L args st alts r0_ icol (kcrit :: ks)
  = (t ++ [Sweep.CallFindAdaptiveMom L fftImg; Sweep.CallFindAdaptiveMom L secondKickImg],
     Raise e).
Proof.
  intros Hrender Hfirst Hfit Hne. cbn [Sweep.sweep]. unfold Sweep.iteration.
  rewrite Hrender. cbn [Sweep.mbind fst snd].
  rewrite (proj2 (collect_aborts L icol kcrit fftImg secondKickImg e Hne) Hfirst Hfit).
  reflexivity.
Qed.

Lemma second_fit_error_ends_sweep_witness :
  let L := Examples.picky ValueError in
  let st := {| Layers.stream := tt : rng L; Layers.spd := [];
               Layers.dirn := []; Layers.r0_500 := [] |} in
  exists t,
    Sweep.sweep L Examples.defaults st [] 1 0 [Fin (5 / 100); Fin (5 / 10)]
    = (t ++ [Sweep.CallFindAdaptiveMom L default_method;
             Sweep.CallFindAdaptiveMom L (phot (Args.nphot Examples.defaults))],
       Raise ValueError).
Proof.
  intros L st.
  destruct (render_picky ValueError st [] 1 (Fin (5 / 100))) as [t Ht].
  exists t.
  apply (second_fit_error_ends_sweep L Examples.defaults st [] 1 0 (Fin (5 / 100))
           [Fin (5 / 10)] t default_method (phot (Args.nphot Examples.defaults)) ValueError).
  - exact Ht.
  - intros e' H. cbn in H. discriminate.
  - reflexivity.
  - discriminate.
Defined.

(** X11.  A run that saved the figure can be repeated: the second time the
    directory is found, [os.mkdir] is not called, and the figure is saved
    again. *)
Theorem second_save_skips_mkdir (L : Lib) (fs fs1 : OS.FS) (outfile : string)
    (t : list (Sweep.event L)) :
  Sweep.save L fs outfile = (t, fs1, Ok tt) ->
  Sweep.save L fs1 outfile = ([Sweep.Savefig L outfile], outfile :: fs1, Ok tt).
Proof.
  unfold Sweep.save. destruct (OS.split outfile) as [d f].
  destruct (OS.path_exists fs d) eqn:Ex.
  - intros [= _ <-]. now rewrite (path_exists_cons fs outfile d Ex).
  - destruct (OS.mkdir fs d) as [fs'|e] eqn:Em; [|discriminate].
    intros [= _ <-]. apply mkdir_inv in Em as [Hd ->].
    now rewrite (path_exists_cons _ outfile d (path_exists_head fs d Hd)).
Qed.

Lemma second_save_skips_mkdir_witness :
  let L := Examples.stub (Ok 1) in
  let outfile := "output/secondKick.png"%string in
  Sweep.save L [outfile; "output"%string] outfile
  = ([Sweep.Savefig L outfile], [outfile; outfile; "output"%string], Ok tt).
Proof.
  intros L outfile.
  apply (second_save_skips_mkdir L [] [outfile; "output"%string] outfile
           [Sweep.Mkdir L "output"; Sweep.Savefig L outfile]).
  reflexivity.
Defined.

(** X14.  A sweep over four cutoff values fills the figure.  With a library
    that never aborts, a nonzero time step and [r0] of line 106 a real
    number [r], the sweep ends without error; the eight panels are shown
    column by column, each column is titled with its cutoff value, the
    screens of a column are cut at [kcrit / r], and its second kick is built
    for the same [r] and [kcrit]. *)
Theorem figure_is_complete (L : Lib) (args : Args.t) (st : Layers.state L)
    (alts : list R) (r : R) (ks : list xreal) :
  Sweep.never_aborts L ->
  Args.time_step args <> 0 ->
  Sweep.r0 args = Ok r ->
  length ks = 4%nat ->
  snd (Sweep.sweep L args st alts r 0 ks) = Ok tt /\
  Sweep.shown L (fst (Sweep.sweep L args st alts r 0 ks))
  = [(0, 0); (1, 0); (0, 1); (1, 1); (0, 2); (1, 2); (0, 3); (1, 3)]%nat /\
  Sweep.titles L (fst (Sweep.sweep L args st alts r 0 ks)) = combine [0; 1; 2; 3]%nat ks /\
  Sweep.kmins L (fst (Sweep.sweep L args st alts r 0 ks)) = map (fun k => div_fin k r) ks /\
  Sweep.kicks L (fst (Sweep.sweep L args st alts r 0 ks)) = map (fun k => (r, k)) ks.
Proof.
  intros Hlib Hts Hr Hlen.
  destruct (sweep_returns L args st alts r 0 ks Hlib Hts (ex_intro _ _ Hr)) as [Hs Ht];
    [lia|].
  split; [exact Hs|].
  rewrite (sweep_shown L args st alts r 0 ks Hs), Ht, Hlen.
  destruct (sweep_scales L args st alts r 0 ks Hs) as [-> Hk].
  rewrite (Hk r Hr). repeat split.
Qed.

Lemma figure_is_complete_witness :
  let L := Examples.stub (Raise RuntimeError) in
  let args := Examples.defaults in
  let st := Examples.no_layers (Raise RuntimeError) in
  let r := 15 / 100 * Rpower (700 / 500) (6 / 5) in
  let ks := Sweep.kcrits (5 / 100) (5 / 10) in
  snd (Sweep.sweep L args st [] r 0 ks) = Ok tt /\
  Sweep.shown L (fst (Sweep.sweep L args st [] r 0 ks))
  = [(0, 0); (1, 0); (0, 1); (1, 1); (0, 2); (1, 2); (0, 3); (1, 3)]%nat /\
  Sweep.titles L (fst (Sweep.sweep L args st [] r 0 ks)) = combine [0; 1; 2; 3]%nat ks /\
  Sweep.kmins L (fst (Sweep.sweep L args st [] r 0 ks)) = map (fun k => div_fin k r) ks /\
  Sweep.kicks L (fst (Sweep.sweep L args st [] r 0 ks)) = map (fun k => (r, k)) ks.
Proof.
  apply (figure_is_complete (Examples.stub (Raise RuntimeError)) Examples.defaults
           (Examples.no_layers (Raise RuntimeError)) []
           (15 / 100 * Rpower (700 / 500) (6 / 5)) (Sweep.kcrits (5 / 100) (5 / 10))).
  - apply stub_never_aborts. intros e H. congruence.
  - cbn. lra.
  - apply r0_defaults.
  - apply kcrits_length.
Defined.

